(** * beersState: the beer catalog store

    A shallow embedding of [src/state/beersState.ts] (class [BeersState]):
    the merge of fetched beers into the catalog ([unionAndSortBeers]), the
    request cache kept in [uriMap] ([getBeersApi]), and the actions
    [loadBeer], [selectBeer], [toggleLikeBeer], [setComment] and [wipe].

    Numbers that the code uses as ids are modelled as integers ([Z]);
    strings as [string]; the two observable maps as [gmap string _]; the
    arrays as lists.  Asynchronous functions are resumption trees: every
    [await] is a node at which the store may have been changed by other
    tasks before the function goes on.  The reaction of the class
    ([disableAutofetchLikedBeers], which reloads the liked beers that the
    catalog lacks) runs wherever a function has written [beers] or
    [likedBeerIds]. *)

From Stdlib Require Import ZArith List Ascii Sorting.Sorted Permutation.
From stdpp Require Import gmap strings list fin_maps pretty.

Local Open Scope string_scope.
Local Open Scope list_scope.
Local Open Scope Z_scope.

(** ** Data model *)

(** Modelled from the spec: the declaration of [IBeer] ([./IBeer]) is not
    part of the sources.  An entity has a numeric [id], a display [name],
    and further attributes that the store never inspects. *)
Record IBeer := mkBeer {
  id : Z;
  name : string;
  attributes : string
}.

#[global] Instance IBeer_eq_dec : EqDecision IBeer.
Proof. solve_decision. Defined.

(** A JavaScript number as the store meets it: an integer, or one of the
    values that [_.isFinite] rejects. *)
Inductive number :=
| Num (z : Z)
| NaN
| Infinity (negative : bool).

#[global] Instance number_eq_dec : EqDecision number.
Proof. solve_decision. Defined.

Definition isFinite (n : number) : bool :=
  match n with Num _ => true | _ => false end.

(** ** lodash: [_.unionWith] and [_.sortBy] *)

Module Lodash.

(** [arrayIncludesWith(array, value, comparator)] *)
Definition arrayIncludesWith {A} (array : list A) (value : A)
    (comparator : A -> A -> bool) : bool :=
  existsb (fun other => comparator value other) array.

(** [baseUniq(array, undefined, comparator)]: one pass from the left, a
    value is pushed unless the result already holds a match. *)
Definition baseUniq {A} (array : list A) (comparator : A -> A -> bool) : list A :=
  fold_left
    (fun result value =>
       if arrayIncludesWith result value comparator then result
       else result ++ [value])
    array [].

(** [_.unionWith(array, other, comparator)] *)
Definition unionWith {A} (array other : list A) (comparator : A -> A -> bool) : list A :=
  baseUniq (array ++ other) comparator.

(** [value < other] on strings: code unit by code unit, a proper prefix
    is smaller. *)
Fixpoint string_ltb (value other : string) : bool :=
  match value, other with
  | _, EmptyString => false
  | EmptyString, String _ _ => true
  | String a value', String b other' =>
      if (Ascii.N_of_ascii a <? Ascii.N_of_ascii b)%N then true
      else if (Ascii.N_of_ascii b <? Ascii.N_of_ascii a)%N then false
      else string_ltb value' other'
  end.

(** [compareAscending(value, other)] on two strings *)
Definition compareAscending (value other : string) : Z :=
  if string_ltb other value then 1
  else if string_ltb value other then -1
  else 0.

(** The objects that [baseOrderBy] sorts: the sort key, the position in
    the input, and the element. *)
Record entry (A : Type) := mkEntry {
  criteria : string;
  index : Z;
  value : A
}.
Arguments mkEntry {A}.
Arguments criteria {A}.
Arguments index {A}.
Arguments value {A}.

(** [compareMultiple(object, other, [])] with a single criterion: the
    keys decide, and equal keys fall back on the input positions. *)
Definition compareMultiple {A} (object other : entry A) : Z :=
  let result := compareAscending (criteria object) (criteria other) in
  if result =? 0 then index object - index other else result.

(** [baseMap(collection, ...)] of [baseOrderBy]: the entries, numbered
    from [start]. *)
Fixpoint entries {A} (iteratee : A -> string) (start : Z) (collection : list A)
    : list (entry A) :=
  match collection with
  | [] => []
  | v :: rest => mkEntry (iteratee v) start v :: entries iteratee (start + 1) rest
  end.

(** [array.sort(comparer)].  [compareMultiple] is a strict total order on
    entries with distinct positions, so the sorted array does not depend
    on the algorithm; insertion sort is taken here. *)
Fixpoint insert {A} (comparer : A -> A -> Z) (x : A) (sorted : list A) : list A :=
  match sorted with
  | [] => [x]
  | y :: rest =>
      if comparer x y <=? 0 then x :: sorted else y :: insert comparer x rest
  end.

Fixpoint sort {A} (comparer : A -> A -> Z) (array : list A) : list A :=
  match array with
  | [] => []
  | x :: rest => insert comparer x (sort comparer rest)
  end.

(** [_.sortBy(collection, [iteratee])] *)
Definition sortBy {A} (collection : list A) (iteratee : A -> string) : list A :=
  map value (sort compareMultiple (entries iteratee 0 collection)).

End Lodash.

(** ** The merge engine *)

(** [unionAndSortBeers(newBeers)], with [this.beers] as first argument. *)
Definition unionAndSortBeers (beers newBeers : list IBeer) : list IBeer :=
  let unioned := Lodash.unionWith beers newBeers (fun a b => id a =? id b) in
  Lodash.sortBy unioned name.

(** ** The store *)

(** [IBeersInfo] *)
Record IBeersInfo := mkBeersInfo {
  globalLikes : gmap string Z;
  globalComments : gmap string (list (string * string))
}.

(** The fields of [BeersState] *)
Record BeersState := mkState {
  beers : list IBeer;
  remainingRequests : number;
  selectedBeer : option IBeer;
  errorText : option string;
  isRehydrated : bool;
  likedBeerIds : list Z;
  commentsMap : gmap string string;
  isUploading : bool;
  beersInfo : option IBeersInfo;
  uriMap : gmap string bool
}.

(** The store of [new BeersState()] *)
Definition initial : BeersState :=
  mkState [] (Num 0) None None false [] ∅ false None ∅.

(** Assignments to one field *)
Definition set_beers (v : list IBeer) (s : BeersState) : BeersState :=
  mkState v (remainingRequests s) (selectedBeer s) (errorText s) (isRehydrated s)
    (likedBeerIds s) (commentsMap s) (isUploading s) (beersInfo s) (uriMap s).
Definition set_remainingRequests (v : number) (s : BeersState) : BeersState :=
  mkState (beers s) v (selectedBeer s) (errorText s) (isRehydrated s)
    (likedBeerIds s) (commentsMap s) (isUploading s) (beersInfo s) (uriMap s).
Definition set_selectedBeer (v : option IBeer) (s : BeersState) : BeersState :=
  mkState (beers s) (remainingRequests s) v (errorText s) (isRehydrated s)
    (likedBeerIds s) (commentsMap s) (isUploading s) (beersInfo s) (uriMap s).
Definition set_errorText (v : option string) (s : BeersState) : BeersState :=
  mkState (beers s) (remainingRequests s) (selectedBeer s) v (isRehydrated s)
    (likedBeerIds s) (commentsMap s) (isUploading s) (beersInfo s) (uriMap s).
Definition set_likedBeerIds (v : list Z) (s : BeersState) : BeersState :=
  mkState (beers s) (remainingRequests s) (selectedBeer s) (errorText s) (isRehydrated s)
    v (commentsMap s) (isUploading s) (beersInfo s) (uriMap s).
Definition set_commentsMap (v : gmap string string) (s : BeersState) : BeersState :=
  mkState (beers s) (remainingRequests s) (selectedBeer s) (errorText s) (isRehydrated s)
    (likedBeerIds s) v (isUploading s) (beersInfo s) (uriMap s).
Definition set_isUploading (v : bool) (s : BeersState) : BeersState :=
  mkState (beers s) (remainingRequests s) (selectedBeer s) (errorText s) (isRehydrated s)
    (likedBeerIds s) (commentsMap s) v (beersInfo s) (uriMap s).
Definition set_beersInfo (v : option IBeersInfo) (s : BeersState) : BeersState :=
  mkState (beers s) (remainingRequests s) (selectedBeer s) (errorText s) (isRehydrated s)
    (likedBeerIds s) (commentsMap s) (isUploading s) v (uriMap s).
Definition set_uriMap (v : gmap string bool) (s : BeersState) : BeersState :=
  mkState (beers s) (remainingRequests s) (selectedBeer s) (errorText s) (isRehydrated s)
    (likedBeerIds s) (commentsMap s) (isUploading s) (beersInfo s) v.

(** ** Collaborators *)

(** Modelled from the spec: [authState] is not part of the sources.  The
    auth collaborator says whether the user is authenticated and, when so,
    holds the access token. *)
Inductive AuthState :=
| Anonymous
| Authenticated (accessToken : string).

(** What the code reads of a [fetch] response. *)
Record Response := mkResponse {
  status : Z;
  statusText : string;
  x_ratelimit_remaining : option string
}.

(** [res.ok] *)
Definition ok (res : Response) : bool :=
  (200 <=? status res) && (status res <=? 299).

(** The second argument of the [PATCH] request, with the body before
    [JSON.stringify]. *)
Record RequestInit := mkInit {
  method : string;
  authorization : string;
  body_commentsMap : gmap string string;
  body_likedBeerIds : list Z
}.

(** A thrown [Error]. *)
Record Error := mkError { message : string }.

(** How a promise settles. *)
Inductive settled (R : Type) :=
| Fulfilled (v : R)
| Rejected (e : Error).
Arguments Fulfilled {R}.
Arguments Rejected {R}.

(** The promises of the outside world that the store awaits: [fetch], and
    [res.json()] at the type at which the call site uses the value. *)
Inductive request : Type -> Type :=
| fetch (uri : string) (init : option RequestInit) : request Response
| json_beers (res : Response) : request (list IBeer)
| json_info (res : Response) : request (option IBeersInfo)
| json_any (res : Response) : request unit.

(** ** Asynchronous functions

    A call runs until it returns, throws or reaches an [await]; the store
    it has then is the first argument of the node.  The continuation of an
    [await] gets the store as it is when the function is resumed.
    [Await] waits for the outside world, [Yield] for a promise of the
    store itself, and [Fork] is a call of an asynchronous function whose
    promise is dropped: the callee has run up to [child], the caller goes
    on with [rest].  [React] stands where the function has written
    [beers] or [likedBeerIds]: MobX runs the reaction
    [disableAutofetchLikedBeers], which observes them, before the function
    goes on (for an action, when the action ends). *)
Inductive task (A : Type) : Type :=
| Return (s : BeersState) (a : A)
| Throw (s : BeersState) (e : Error)
| Await (R : Type) (s : BeersState) (io : request R)
    (k : settled R -> BeersState -> task A)
| Yield (s : BeersState) (k : BeersState -> task A)
| Fork (B : Type) (child : task B) (rest : task A)
| React (s : BeersState) (k : BeersState -> task A).
Arguments Return {A}.
Arguments Throw {A}.
Arguments Await {A R}.
Arguments Yield {A}.
Arguments Fork {A B}.
Arguments React {A}.

(** ** What the reaction does before it hands control back

    The reaction calls [loadBeer] for every liked id.  Each call runs to
    its first [await]: it finds the beer in the catalog, or it enters
    [getBeersApi], which clears the error text and, unless the key is
    [false] in [uriMap], stores [true] for the key and calls [fetch].  The
    promises are dropped; the calls go on as tasks of their own.  The
    definitions below follow [loadBeer] and [getBeersApi] up to that point;
    [react_is_autofetchLikedBeers] shows that they give the store and the
    fetches of the reaction as the class has it ([autofetchLikedBeers]). *)

(** [_.find(beers, { id })] *)
Definition find_id (collection : list IBeer) (i : Z) : option IBeer :=
  find (fun beer => id beer =? i) collection.

(** [get likedBeers()] *)
Definition likedBeers (s : BeersState) : list IBeer :=
  List.filter (fun beer => bool_decide (id beer ∈ likedBeerIds s)) (beers s).

(** [dismissError()] *)
Definition dismissError (s : BeersState) : BeersState :=
  set_errorText None s.

(** The URI that [getBeersApi(id)] builds: [id ? "/" + id : ""]. *)
Definition beers_uri (i : option Z) : string :=
  "https://api.punkapi.com/v2/beers"
  +:+ match i with
      | Some i => if i =? 0 then "" else "/" +:+ pretty i
      | None => ""
      end.

(** [this.loadBeer(id)] up to its first [await]: the store it leaves and
    the [fetch] it has called. *)
Definition react_loadBeer (i : Z) (s : BeersState)
    : BeersState * list (string * option RequestInit) :=
  match find_id (beers s) i with
  | Some _ => (s, [])
  | None =>
      let s := dismissError s in
      let uri := beers_uri (Some i) in
      if bool_decide (uriMap s !! uri = Some false) then (s, [])
      else (set_uriMap (<[uri := true]> (uriMap s)) s, [(uri, None)])
  end.

(** [_.map(this.likedBeerIds, (id) => this.loadBeer(id))] up to the first
    [await] of each call. *)
Fixpoint react_loadEach (ids : list Z) (s : BeersState)
    : BeersState * list (string * option RequestInit) :=
  match ids with
  | [] => (s, [])
  | i :: rest =>
      let '(s1, first) := react_loadBeer i s in
      let '(s2, others) := react_loadEach rest s1 in
      (s2, first ++ others)
  end.

(** One run of the reaction: the store it leaves and the [fetch] calls it
    has made. *)
Definition react (s : BeersState) : BeersState * list (string * option RequestInit) :=
  if (length (likedBeerIds s) =? length (likedBeers s))%nat then (s, [])
  else react_loadEach (likedBeerIds s) s.

(** The store when the call hands control back. *)
Fixpoint store_of {A} (t : task A) : BeersState :=
  match t with
  | Return s _ | Throw s _ | Await s _ _ | Yield s _ => s
  | Fork _ rest => store_of rest
  | React s k => store_of (k (fst (react s)))
  end.

(** [callee(...)] without [await]: the caller goes on with the store the
    callee left. *)
Definition forget {A B} (child : task B) (rest : BeersState -> task A) : task A :=
  Fork child (rest (store_of child)).

(** [await callee(...)] inside [try]: the caller is resumed one tick after
    the callee has settled, with the value or the error. *)
Fixpoint await {A B} (callee : task A) (k : settled A -> BeersState -> task B)
    : task B :=
  match callee with
  | Return s a => Yield s (k (Fulfilled a))
  | Throw s e => Yield s (k (Rejected e))
  | Await s io k' => Await s io (fun r s' => await (k' r s') k)
  | Yield s k' => Yield s (fun s' => await (k' s') k)
  | Fork child rest => Fork child (await rest k)
  | React s k' => React s (fun s' => await (k' s') k)
  end.

(** The request the call is waiting for, if it is a [fetch]. *)
Fixpoint fetching {A} (t : task A) : option string :=
  match t with
  | Await _ (fetch uri _) _ => Some uri
  | Fork _ rest => fetching rest
  | React s k => fetching (k (fst (react s)))
  | _ => None
  end.

(** The outside world during one run of a task: how the [n]-th awaited
    promise settles, and what the other tasks do to the store while the
    task is suspended for the [n]-th time. *)
Record environment := mkEnv {
  settle : nat -> forall R, request R -> settled R;
  interfere : nat -> BeersState -> BeersState
}.

(** Where a task ends: the number of times it was suspended, the store it
    leaves and how its promise settles. *)
Record ending (A : Type) := mkEnding {
  suspensions : nat;
  store : BeersState;
  outcome : settled A
}.
Arguments mkEnding {A}.
Arguments suspensions {A}.
Arguments store {A}.
Arguments outcome {A}.

(** The run of a task to its end, from its [n]-th suspension on.  Forked
    calls, those of the reaction among them, are left to the other tasks. *)
Fixpoint run_from {A} (env : environment) (n : nat) (t : task A) : ending A :=
  match t with
  | Return s a => mkEnding n s (Fulfilled a)
  | Throw s e => mkEnding n s (Rejected e)
  | Await s io k => run_from env (S n) (k (settle env n _ io) (interfere env n s))
  | Yield s k => run_from env (S n) (k (interfere env n s))
  | Fork _ rest => run_from env n rest
  | React s k => run_from env n (k (fst (react s)))
  end.

Definition run {A} (env : environment) (t : task A) : ending A :=
  run_from env 0%nat t.

(** The [fetch] calls that the task itself makes during the run, in order;
    those of a forked call, and of the reaction, belong to the forked call. *)
Fixpoint fetches_from {A} (env : environment) (n : nat) (t : task A) : list string :=
  match t with
  | Return _ _ | Throw _ _ => []
  | Await s io k =>
      match io with fetch uri _ => [uri] | _ => [] end
      ++ fetches_from env (S n) (k (settle env n _ io) (interfere env n s))
  | Yield s k => fetches_from env (S n) (k (interfere env n s))
  | Fork _ rest => fetches_from env n rest
  | React s k => fetches_from env n (k (fst (react s)))
  end.

Definition fetches {A} (env : environment) (t : task A) : list string :=
  fetches_from env 0%nat t.

(** What a call that does not wait comes back with. *)
Fixpoint returned {A} (t : task A) : option (settled A) :=
  match t with
  | Return _ a => Some (Fulfilled a)
  | Throw _ e => Some (Rejected e)
  | Fork _ rest => returned rest
  | React s k => returned (k (fst (react s)))
  | _ => None
  end.

(** ** The fetch status of a resource key

    The vocabulary of the specification for the entries of [uriMap]:
    [getBeersApi] stores [true] before it fetches, [false] after a
    success, and deletes the entry after a failure. *)
Inductive FetchStatus := absent | in_flight | done.

#[global] Instance FetchStatus_eq_dec : EqDecision FetchStatus.
Proof. solve_decision. Defined.

Definition fetchStatus (s : BeersState) (uri : string) : FetchStatus :=
  match uriMap s !! uri with
  | None => absent
  | Some true => in_flight
  | Some false => done
  end.

(** ** The class [BeersState] *)

Section BeersState.

(** [parseInt] of the platform ([_.parseInt] and [Number.parseInt] both
    end in it), and [config.API_BASE_URL]. *)
Variable parseInt : string -> number.
Variable API_BASE_URL : string.

(** [get loading()] *)
Definition loading (s : BeersState) : bool :=
  fold_left (fun sum kv => snd kv || sum) (map_to_list (uriMap s)) (isUploading s).

(** [get requestCount()] *)
Definition requestCount (s : BeersState) : Z :=
  fold_left (fun sum kv => if snd kv : bool then sum else sum + 1)
    (map_to_list (uriMap s)) 0.

(** [isLikedBeer(id)] *)
Definition isLikedBeer (s : BeersState) (i : Z) : bool :=
  match find_id (likedBeers s) i with Some _ => true | None => false end.

(** [wipe()] *)
Definition wipe (s : BeersState) : task unit :=
  let s := set_beers [] s in
  let s := set_uriMap ∅ s in
  let s := set_remainingRequests (Num 0) s in
  React s (fun s => Return s tt).

(** [refreshBeersInfo()] *)
Definition refreshBeersInfo (s : BeersState) : task unit :=
  let catch (e : Error) (s : BeersState) :=
    Return (set_errorText (Some ("refreshBeersInfo error: " +:+ message e)) s) tt in
  Await s (fetch (API_BASE_URL +:+ "/app/v1/beers-info") None) (fun r s =>
    match r with
    | Rejected e => catch e s
    | Fulfilled res =>
        Await s (json_info res) (fun r s =>
          match r with
          | Rejected e => catch e s
          | Fulfilled info => Return (set_beersInfo info s) tt
          end)
    end).

(** [getBeersApi(id?)] *)
Definition getBeersApi (i : option Z) (s : BeersState) : task (list IBeer) :=
  let s := dismissError s in
  let uri := beers_uri i in
  let catch (e : Error) (s : BeersState) :=
    let s := set_uriMap (delete uri (uriMap s)) s in
    let s := set_errorText (Some (message e)) s in
    Return s [] in
  if bool_decide (uriMap s !! uri = Some false) then Return s (beers s)
  else
    let s := set_uriMap (<[uri := true]> (uriMap s)) s in
    Await s (fetch uri None) (fun r s =>
      match r with
      | Rejected e => catch e s
      | Fulfilled res =>
          if negb (status res =? 200) then
            catch (mkError ("API returned unexpected response code: "
                            +:+ pretty (status res))) s
          else
            Await s (json_beers res) (fun r s =>
              match r with
              | Rejected e => catch e s
              | Fulfilled beers =>
                  let s := set_remainingRequests
                             (parseInt (default "null" (x_ratelimit_remaining res))) s in
                  let s := set_uriMap (<[uri := false]> (uriMap s)) s in
                  Return s beers
              end)
    end).

(** [loadBeers()] *)
Definition loadBeers (s : BeersState) : task unit :=
  await (getBeersApi None s) (fun r s =>
    match r with
    | Rejected e => Throw s e
    | Fulfilled newBeers =>
        React (set_beers (unionAndSortBeers (beers s) newBeers) s) (fun s => Return s tt)
    end).

(** [loadBeer(id)] *)
Definition loadBeer (i : Z) (s : BeersState) : task IBeer :=
  match find_id (beers s) i with
  | Some beer => Return s beer
  | None =>
      await (getBeersApi (Some i) s) (fun r s =>
        match r with
        | Rejected e => Throw s e
        | Fulfilled fetched =>
            match fetched with
            | [] => Throw s (mkError "Beer not found or currently unavailable!")
            | beer :: _ =>
                React (set_beers (unionAndSortBeers (beers s) [beer]) s)
                  (fun s => Return s beer)
            end
        end)
  end.

(** The argument of [selectBeer]: [string | number]. *)
Inductive idFromUrl :=
| FromString (text : string)
| FromNumber (n : number).

(** [idFromUrl.toString()] *)
Definition toString (raw : idFromUrl) : string :=
  match raw with
  | FromString text => text
  | FromNumber (Num z) => pretty z
  | FromNumber NaN => "NaN"
  | FromNumber (Infinity false) => "Infinity"
  | FromNumber (Infinity true) => "-Infinity"
  end.

(** [selectBeer(idFromUrl)] *)
Definition selectBeer (raw : idFromUrl) (s : BeersState) : task unit :=
  forget (refreshBeersInfo s) (fun s =>
    let s := dismissError s in
    let catch (e : Error) (s : BeersState) :=
      Return (set_errorText (Some (message e)) s) tt in
    match parseInt (toString raw) with
    | Num i =>
        await (loadBeer i s) (fun r s =>
          match r with
          | Fulfilled beer => Return (set_selectedBeer (Some beer) s) tt
          | Rejected e => catch e s
          end)
    | _ => catch (mkError "Beers can only have numeric ids!") s
    end).

(** [deselectBeer()] *)
Definition deselectBeer (s : BeersState) : task unit :=
  Return (set_selectedBeer None s) tt.

(** [uploadStateToUserProfile()]; [auth] is [authState] at the call. *)
Definition uploadStateToUserProfile (auth : AuthState) (s : BeersState) : task unit :=
  match auth with
  | Anonymous => Return s tt
  | Authenticated accessToken =>
      let s := set_isUploading true s in
      let finish (s : BeersState) :=
        let s := set_isUploading false s in
        forget (refreshBeersInfo s) (fun s => Return s tt) in
      let catch (e : Error) (s : BeersState) :=
        finish (set_errorText (Some (message e)) s) in
      Await s
        (fetch (API_BASE_URL +:+ "/app/v1/user/profile")
           (Some (mkInit "PATCH" ("Bearer " +:+ accessToken)
                    (commentsMap s) (likedBeerIds s))))
        (fun r s =>
           match r with
           | Rejected e => catch e s
           | Fulfilled res =>
               if negb (ok res) then
                 catch (mkError (pretty (status res) +:+ ": " +:+ statusText res)) s
               else
                 Await s (json_any res) (fun r s =>
                   match r with
                   | Rejected e => catch e s
                   | Fulfilled _ => finish s
                   end)
           end)
  end.

(** [setComment(id, comment)]; an empty string is falsy. *)
Definition setComment (auth : AuthState) (i : Z) (comment : option string)
    (s : BeersState) : task unit :=
  match find_id (beers s) i with
  | None =>
      Throw s (mkError "You are not allowed to setComment on beers not within our cache!")
  | Some _ =>
      let s :=
        match comment with
        | Some text =>
            if bool_decide (text = "") then
              set_commentsMap (delete (pretty i) (commentsMap s)) s
            else set_commentsMap (<[pretty i := text]> (commentsMap s)) s
        | None => set_commentsMap (delete (pretty i) (commentsMap s)) s
        end in
      forget (uploadStateToUserProfile auth s) (fun s => Return s tt)
  end.

(** [toggleLikeBeer(id)] *)
Definition toggleLikeBeer (auth : AuthState) (i : Z) (s : BeersState) : task unit :=
  let s :=
    if negb (isLikedBeer s i) then set_likedBeerIds (likedBeerIds s ++ [i]) s
    else set_likedBeerIds (List.filter (fun item => negb (item =? i)) (likedBeerIds s)) s in
  forget (uploadStateToUserProfile auth s) (fun s => React s (fun s => Return s tt)).

(** [Promise.all(_.map(ids, (id) => this.loadBeer(id)))], the promise
    dropped: the calls start one after the other, none is awaited. *)
Fixpoint loadEach (ids : list Z) (s : BeersState) : task unit :=
  match ids with
  | [] => Return s tt
  | i :: rest => forget (loadBeer i s) (loadEach rest)
  end.

(** The reaction [disableAutofetchLikedBeers] as a call of its own, with
    the tasks it forks. *)
Definition autofetchLikedBeers (s : BeersState) : task unit :=
  if (length (likedBeerIds s) =? length (likedBeers s))%nat then Return s tt
  else loadEach (likedBeerIds s) s.

End BeersState.

(** ** A [parseInt] for the examples

    Decimal text only: an optional minus sign and the leading decimal
    digits, [NaN] when there is no digit. *)
Definition digit (c : Ascii.ascii) : option Z :=
  let n := Z.of_N (Ascii.N_of_ascii c) in
  if (48 <=? n) && (n <=? 57) then Some (n - 48) else None.

Fixpoint digits (acc : option Z) (text : string) : option Z :=
  match text with
  | EmptyString => acc
  | String c rest =>
      match digit c with
      | Some d => digits (Some (10 * default 0 acc + d)) rest
      | None => acc
      end
  end.

Definition parseInt_decimal (text : string) : number :=
  match text with
  | String "-"%char rest =>
      match digits None rest with Some z => Num (- z) | None => NaN end
  | _ => match digits None text with Some z => Num z | None => NaN end
  end.

(** ** Environments for the examples *)

(** No other task runs, every [fetch] is answered with status 200 and the
    beers [l] (no beers info, an empty acknowledgement). *)
Definition serving (l : list IBeer) : environment :=
  mkEnv
    (fun _ R io =>
       match io in request R return settled R with
       | fetch _ _ => Fulfilled (mkResponse 200 "OK" (Some "24"))
       | json_beers _ => Fulfilled l
       | json_info _ => Fulfilled None
       | json_any _ => Fulfilled tt
       end)
    (fun _ s => s).

(** No other task runs, and every promise of the outside world rejects. *)
Definition offline : environment :=
  mkEnv (fun _ R _ => Rejected (mkError "Failed to fetch")) (fun _ s => s).

(** ** Vocabulary of the properties *)

(** [a <= b] on names: not [b < a]. *)
Definition name_le (a b : string) : Prop := Lodash.string_ltb b a = false.

(** Names never decrease along the list. *)
Definition sortedByName (l : list IBeer) : Prop :=
  StronglySorted (fun a b => name_le (name a) (name b)) l.

(** The beers of the list that carry a given name, in the order of the
    list. *)
Definition named (n : string) (l : list IBeer) : list IBeer :=
  List.filter (fun b => bool_decide (name b = n)) l.

(** The beers of the list that carry a given id, in the order of the
    list. *)
Definition withId (i : Z) (l : list IBeer) : list IBeer :=
  List.filter (fun b => id b =? i) l.

(** The invariant of the catalog: in name order, no id twice. *)
Definition catalog_ok (l : list IBeer) : Prop :=
  sortedByName l /\ List.NoDup (map id l).

(** The merge as the specification words it: an id that occurs in both
    lists is carried once, by the entry of the incoming list. *)
Definition incoming_wins (C X : list IBeer) : Prop :=
  forall i, In i (map id C) -> In i (map id X) ->
    exists b, In b X /\ withId i (unionAndSortBeers C X) = [b].

(** The request cache as the specification words it: of two calls for the
    same key that overlap, the second one, started while the first one
    waits for its fetch, fetches nothing and returns the catalog. *)
Definition second_call_reuses (parseInt : string -> number) (i : option Z)
    (s : BeersState) : Prop :=
  let first := getBeersApi parseInt i s in
  fetching first = Some (beers_uri i) ->
  let second := getBeersApi parseInt i (store_of first) in
  fetching second = None
  /\ returned second = Some (Fulfilled (beers (store_of first))).

(** ... and a call for a key that is [done] fetches again. *)
Definition refetches_when_done (parseInt : string -> number) (i : option Z)
    (s : BeersState) : Prop :=
  fetchStatus s (beers_uri i) = done ->
  let call := getBeersApi parseInt i s in
  fetching call = Some (beers_uri i)
  /\ fetchStatus (store_of call) (beers_uri i) = in_flight.

(** [toggle(id)] twice, as the specification words it: the id is in the
    preference set afterwards exactly when it was before. *)
Definition toggle_twice_restores (API_BASE_URL : string) (auth : AuthState)
    (i : Z) (s : BeersState) : Prop :=
  let once := store_of (toggleLikeBeer API_BASE_URL auth i s) in
  let twice := store_of (toggleLikeBeer API_BASE_URL auth i once) in
  i ∈ likedBeerIds twice <-> i ∈ likedBeerIds s.

(** [setAnnotation(id, text)] with a text, as the specification words it:
    the entry of the id is the text afterwards. *)
Definition text_sets_entry (API_BASE_URL : string) (auth : AuthState)
    (i : Z) (text : string) (s : BeersState) : Prop :=
  commentsMap (store_of (setComment API_BASE_URL auth i (Some text) s)) !! pretty i
  = Some text.

(** [reset()], as the specification words it: the catalog, the fetch
    status map and the quota counter are emptied, and every other field
    holds the value it held before the call. *)
Definition reset_keeps_the_rest (s : BeersState) : Prop :=
  let after := store_of (wipe s) in
  beers after = []
  /\ uriMap after = ∅
  /\ remainingRequests after = Num 0
  /\ likedBeerIds after = likedBeerIds s
  /\ commentsMap after = commentsMap s
  /\ selectedBeer after = selectedBeer s
  /\ errorText after = errorText s
  /\ beersInfo after = beersInfo s
  /\ isUploading after = isUploading s.

(** [loadOne(0)], as the specification words it: with no beer 0 in the
    catalog the call fetches the whole collection and returns the first
    beer of what it has fetched, or fails with the not-found error when
    that is empty.  The collection is [remote], served to every fetch. *)
Definition zero_returns_first_fetched (parseInt : string -> number)
    (s : BeersState) (remote : list IBeer) : Prop :=
  find_id (beers s) 0 = None ->
  fetches (serving remote) (loadBeer parseInt 0 s) = [beers_uri None]
  /\ outcome (run (serving remote) (loadBeer parseInt 0 s))
     = match remote with
       | [] => Rejected (mkError "Beer not found or currently unavailable!")
       | beer :: _ => Fulfilled beer
       end.

(** No other task touches the store during the run. *)
Definition quiet (env : environment) : Prop :=
  forall n s, interfere env n s = s.

(** The [fetch] calls made before the call hands control back, those of
    the calls it forks included, each with its second argument. *)
Fixpoint started {A} (t : task A) : list (string * option RequestInit) :=
  match t with
  | Await _ (fetch uri init) _ => [(uri, init)]
  | Fork child rest => started child ++ started rest
  | React s k => snd (react s) ++ started (k (fst (react s)))
  | _ => []
  end.

(** All of the store but the error text and the request cache is the
    same. *)
Definition same_but_cache (s s' : BeersState) : Prop :=
  beers s' = beers s
  /\ likedBeerIds s' = likedBeerIds s
  /\ commentsMap s' = commentsMap s
  /\ selectedBeer s' = selectedBeer s
  /\ remainingRequests s' = remainingRequests s
  /\ beersInfo s' = beersInfo s
  /\ isUploading s' = isUploading s
  /\ isRehydrated s' = isRehydrated s.

(** No beer of the catalog has the id. *)
Definition missing (s : BeersState) (i : Z) : bool :=
  match find_id (beers s) i with Some _ => false | None => true end.

(** The ids of the list that no beer of the catalog has, as often as they
    are in the list. *)
Definition missing_of (s : BeersState) (ids : list Z) : list Z :=
  List.filter (missing s) ids.

(** Those of them whose key is not [done]. *)
Definition fetched_of (s : BeersState) (ids : list Z) : list Z :=
  List.filter
    (fun i => negb (bool_decide (uriMap s !! beers_uri (Some i) = Some false)))
    (missing_of s ids).

(** The [fetch] of the beer of an id, as [getBeersApi] calls it. *)
Definition get_beer (i : Z) : string * option RequestInit :=
  (beers_uri (Some i), None).

(** The three ways in which the fetch of [getBeersApi] fails, from its
    [n]-th suspension on, with the error that is caught: [fetch] rejects,
    the status is not 200, or [res.json()] rejects. *)
Definition fetch_fails (env : environment) (n : nat) (uri : string) (e : Error) : Prop :=
  settle env n _ (fetch uri None) = Rejected e
  \/ (exists res,
        settle env n _ (fetch uri None) = Fulfilled res
        /\ status res <> 200
        /\ e = mkError ("API returned unexpected response code: " +:+ pretty (status res)))
  \/ (exists res,
        settle env n _ (fetch uri None) = Fulfilled res
        /\ status res = 200
        /\ settle env (S n) _ (json_beers res) = Rejected e).

(** * Properties *)

(** ** [_.unionWith] with a comparator on keys *)

Section UnionWith.

Context {A : Type} (key : A -> Z).

Let comparator (a b : A) : bool := key a =? key b.
Let push (result : list A) (v : A) : list A :=
  if Lodash.arrayIncludesWith result v comparator then result else result ++ [v].
Let has (i : Z) (a : A) : bool := key a =? i.

Lemma arrayIncludesWith_key (result : list A) (v : A) :
  Lodash.arrayIncludesWith result v comparator = true <-> In (key v) (map key result).
Proof.
  unfold Lodash.arrayIncludesWith, comparator. rewrite existsb_exists, in_map_iff.
  split; intros [x [H1 H2]]; exists x.
  - apply Z.eqb_eq in H2. auto.
  - split; [assumption|]. apply Z.eqb_eq. congruence.
Qed.

Lemma find_has_None (l : list A) (i : Z) :
  find (has i) l = None <-> ~ In i (map key l).
Proof.
  unfold has. induction l as [|x l IH]; simpl; [tauto|].
  destruct (Z.eqb_spec (key x) i); [split; [discriminate | tauto]|].
  rewrite IH. tauto.
Qed.

Lemma find_has_app (l1 l2 : list A) (i : Z) :
  find (has i) (l1 ++ l2)
  = match find (has i) l1 with Some b => Some b | None => find (has i) l2 end.
Proof.
  induction l1 as [|x l1 IH]; simpl; [reflexivity|].
  destruct (has i x); auto.
Qed.

Lemma fold_push_find (l acc : list A) (i : Z) :
  find (has i) (fold_left push l acc)
  = match find (has i) acc with Some b => Some b | None => find (has i) l end.
Proof.
  revert acc. induction l as [|x l IH]; intros acc; simpl.
  - destruct (find (has i) acc); reflexivity.
  - rewrite IH. unfold push at 1.
    destruct (Lodash.arrayIncludesWith acc x comparator) eqn:E.
    + destruct (find (has i) acc) eqn:F; [reflexivity|].
      destruct (has i x) eqn:Hx; [|reflexivity].
      apply arrayIncludesWith_key in E. apply find_has_None in F.
      unfold has in Hx. apply Z.eqb_eq in Hx. subst i. contradiction.
    + rewrite find_has_app. simpl.
      destruct (find (has i) acc); [reflexivity|].
      destruct (has i x); reflexivity.
Qed.

Lemma fold_push_keys (l acc : list A) (i : Z) :
  In i (map key (fold_left push l acc)) <-> In i (map key acc) \/ In i (map key l).
Proof.
  revert acc. induction l as [|x l IH]; intros acc; simpl; [tauto|].
  rewrite IH. unfold push.
  destruct (Lodash.arrayIncludesWith acc x comparator) eqn:E.
  - apply arrayIncludesWith_key in E. split; [tauto|].
    intros [H|[H|H]]; subst; tauto.
  - rewrite map_app, in_app_iff. simpl. tauto.
Qed.

Lemma fold_push_incl (l acc : list A) (x : A) :
  In x (fold_left push l acc) -> In x acc \/ In x l.
Proof.
  revert acc. induction l as [|y l IH]; intros acc; simpl; [tauto|].
  intros H. apply IH in H. unfold push in H.
  destruct (Lodash.arrayIncludesWith acc y comparator); [tauto|].
  rewrite in_app_iff in H. simpl in H. tauto.
Qed.

Lemma fold_push_NoDup (l acc : list A) :
  List.NoDup (map key acc) -> List.NoDup (map key (fold_left push l acc)).
Proof.
  revert acc. induction l as [|x l IH]; intros acc Hacc; simpl; [assumption|].
  apply IH. unfold push.
  destruct (Lodash.arrayIncludesWith acc x comparator) eqn:E; [assumption|].
  rewrite map_app. simpl. apply List.NoDup_app; [assumption | |].
  - constructor; [simpl; tauto | constructor].
  - intros a Ha [<-|[]]. apply arrayIncludesWith_key in Ha. congruence.
Qed.

Lemma fold_push_absorb (l acc : list A) :
  (forall x, In x l -> In (key x) (map key acc)) -> fold_left push l acc = acc.
Proof.
  induction l as [|x l IH]; intros H; simpl; [reflexivity|].
  unfold push at 2.
  destruct (Lodash.arrayIncludesWith acc x comparator) eqn:E.
  - apply IH. intros y Hy. apply H. now right.
  - exfalso. assert (Hx : In (key x) (map key acc)) by (apply H; now left).
    apply arrayIncludesWith_key in Hx. congruence.
Qed.

Lemma fold_push_fresh (l acc : list A) :
  List.NoDup (map key (acc ++ l)) -> fold_left push l acc = acc ++ l.
Proof.
  revert acc. induction l as [|x l IH]; intros acc H; simpl.
  - now rewrite app_nil_r.
  - unfold push at 2.
    destruct (Lodash.arrayIncludesWith acc x comparator) eqn:E.
    + exfalso. apply arrayIncludesWith_key in E.
      rewrite map_app in H. simpl in H. apply NoDup_remove_2 in H.
      apply H. apply in_app_iff. now left.
    + rewrite IH; rewrite <- app_assoc; [reflexivity | exact H].
Qed.

Lemma baseUniq_NoDup (l : list A) :
  List.NoDup (map key (Lodash.baseUniq l comparator)).
Proof. apply fold_push_NoDup. constructor. Qed.

Lemma baseUniq_find (l : list A) (i : Z) :
  find (has i) (Lodash.baseUniq l comparator) = find (has i) l.
Proof. unfold Lodash.baseUniq. etransitivity; [apply (fold_push_find l [] i)|]. reflexivity. Qed.

Lemma baseUniq_keys (l : list A) (i : Z) :
  In i (map key (Lodash.baseUniq l comparator)) <-> In i (map key l).
Proof.
  unfold Lodash.baseUniq. etransitivity; [apply (fold_push_keys l [] i)|].
  simpl. tauto.
Qed.

(** A second union with what was already merged in changes nothing. *)
Lemma unionWith_absorb (u x : list A) :
  List.NoDup (map key u) ->
  (forall y, In y x -> In (key y) (map key u)) ->
  Lodash.unionWith u x comparator = u.
Proof.
  intros Hu Hx. unfold Lodash.unionWith, Lodash.baseUniq.
  rewrite fold_left_app.
  change (fold_left push x (fold_left push u []) = u).
  rewrite (fold_push_fresh u []); [|exact Hu]. simpl.
  now apply fold_push_absorb.
Qed.

(** Among elements with distinct keys, the elements with a given key are
    the first one found. *)
Lemma filter_has_NoDup (l : list A) (i : Z) :
  List.NoDup (map key l) ->
  List.filter (has i) l = match find (has i) l with Some b => [b] | None => [] end.
Proof.
  induction l as [|x l IH]; intros H; simpl; [reflexivity|].
  inversion H as [|? ? Hx Hl]; subst.
  destruct (has i x) eqn:E.
  - f_equal. unfold has in E. apply Z.eqb_eq in E. subst i.
    assert (F : find (has (key x)) l = None) by now apply find_has_None.
    rewrite IH in * by assumption. now rewrite F.
  - now apply IH.
Qed.

End UnionWith.

(** ** The order on names *)

Lemma string_ltb_irrefl (a : string) : Lodash.string_ltb a a = false.
Proof.
  induction a as [|c a IH]; simpl; [reflexivity|].
  now rewrite N.ltb_irrefl.
Qed.

Lemma string_ltb_asym (a b : string) :
  Lodash.string_ltb a b = true -> Lodash.string_ltb b a = false.
Proof.
  revert b. induction a as [|c a IH]; intros [|d b]; simpl; try congruence.
  destruct (N.ltb_spec (Ascii.N_of_ascii c) (Ascii.N_of_ascii d)),
           (N.ltb_spec (Ascii.N_of_ascii d) (Ascii.N_of_ascii c));
    try congruence; try lia.
  apply IH.
Qed.

Lemma name_le_refl (a : string) : name_le a a.
Proof. apply string_ltb_irrefl. Qed.

Lemma name_le_trans (a b c : string) : name_le a b -> name_le b c -> name_le a c.
Proof.
  unfold name_le. revert b c.
  induction a as [|x a IH]; intros [|y b] [|z c]; simpl; try congruence.
  destruct (N.ltb_spec (Ascii.N_of_ascii y) (Ascii.N_of_ascii x)),
           (N.ltb_spec (Ascii.N_of_ascii x) (Ascii.N_of_ascii y)),
           (N.ltb_spec (Ascii.N_of_ascii z) (Ascii.N_of_ascii y)),
           (N.ltb_spec (Ascii.N_of_ascii y) (Ascii.N_of_ascii z)),
           (N.ltb_spec (Ascii.N_of_ascii z) (Ascii.N_of_ascii x)),
           (N.ltb_spec (Ascii.N_of_ascii x) (Ascii.N_of_ascii z));
    try congruence; try lia.
  apply IH.
Qed.

(** ** [_.sortBy] *)

Section SortBy.

Context {A : Type} (iteratee : A -> string).

Let below (i : Z) (es : list (Lodash.entry A)) : Prop :=
  forall e, In e es -> i < Lodash.index e.
Let keyed (es : list (Lodash.entry A)) : Prop :=
  forall e, In e es -> Lodash.criteria e = iteratee (Lodash.value e).
Let crit (n : string) (e : Lodash.entry A) : bool :=
  bool_decide (Lodash.criteria e = n).

Lemma compareMultiple_le (x y : Lodash.entry A) :
  Lodash.compareMultiple x y <= 0 -> name_le (Lodash.criteria x) (Lodash.criteria y).
Proof.
  unfold Lodash.compareMultiple, Lodash.compareAscending, name_le.
  destruct (Lodash.string_ltb (Lodash.criteria y) (Lodash.criteria x)); simpl; [lia|].
  reflexivity.
Qed.

Lemma compareMultiple_gt (x y : Lodash.entry A) :
  0 < Lodash.compareMultiple x y -> name_le (Lodash.criteria y) (Lodash.criteria x).
Proof.
  unfold Lodash.compareMultiple, Lodash.compareAscending, name_le.
  destruct (Lodash.string_ltb (Lodash.criteria y) (Lodash.criteria x)) eqn:E; simpl.
  - intros _. now apply string_ltb_asym.
  - destruct (Lodash.string_ltb (Lodash.criteria x) (Lodash.criteria y)); simpl; [lia|].
    reflexivity.
Qed.

(** Earlier in the input and not larger in name: not after. *)
Lemma compareMultiple_earlier (x y : Lodash.entry A) :
  name_le (Lodash.criteria x) (Lodash.criteria y) ->
  Lodash.index x < Lodash.index y ->
  Lodash.compareMultiple x y <= 0.
Proof.
  unfold Lodash.compareMultiple, Lodash.compareAscending, name_le. intros -> H.
  destruct (Lodash.string_ltb (Lodash.criteria x) (Lodash.criteria y)); simpl; lia.
Qed.

Lemma insert_perm (x : Lodash.entry A) (l : list (Lodash.entry A)) :
  Permutation (Lodash.insert Lodash.compareMultiple x l) (x :: l).
Proof.
  induction l as [|y l IH]; simpl; [reflexivity|].
  destruct (Lodash.compareMultiple x y <=? 0); [reflexivity|].
  rewrite IH. apply perm_swap.
Qed.

Lemma sort_perm (l : list (Lodash.entry A)) :
  Permutation (Lodash.sort Lodash.compareMultiple l) l.
Proof.
  induction l as [|x l IH]; simpl; [reflexivity|].
  rewrite insert_perm. now constructor.
Qed.

Lemma insert_sorted (x : Lodash.entry A) (l : list (Lodash.entry A)) :
  Sorted (fun a b => name_le (Lodash.criteria a) (Lodash.criteria b)) l ->
  Sorted (fun a b => name_le (Lodash.criteria a) (Lodash.criteria b))
    (Lodash.insert Lodash.compareMultiple x l).
Proof.
  induction l as [|y l IH]; intros H; simpl; [repeat constructor|].
  destruct (Z.leb_spec (Lodash.compareMultiple x y) 0) as [Hc|Hc].
  - constructor; [assumption|]. constructor. now apply compareMultiple_le.
  - inversion H as [|? ? Hl Hy]; subst. constructor; [now apply IH|].
    apply compareMultiple_gt in Hc.
    destruct l as [|z l]; simpl; [now constructor|].
    destruct (Lodash.compareMultiple x z <=? 0); constructor; [assumption|].
    now inversion Hy.
Qed.

Lemma sort_sorted (l : list (Lodash.entry A)) :
  Sorted (fun a b => name_le (Lodash.criteria a) (Lodash.criteria b))
    (Lodash.sort Lodash.compareMultiple l).
Proof.
  induction l as [|x l IH]; simpl; [constructor|]. now apply insert_sorted.
Qed.

Lemma entries_value (k : Z) (l : list A) :
  map Lodash.value (Lodash.entries iteratee k l) = l.
Proof.
  revert k. induction l as [|x l IH]; intros k; simpl; [reflexivity|].
  now rewrite IH.
Qed.

Lemma entries_keyed (k : Z) (l : list A) : keyed (Lodash.entries iteratee k l).
Proof.
  revert k. induction l as [|x l IH]; intros k e; simpl; [tauto|].
  intros [<-|H]; [reflexivity|]. now apply (IH (k + 1)).
Qed.

Lemma entries_below (k j : Z) (l : list A) :
  j < k -> below j (Lodash.entries iteratee k l).
Proof.
  revert k. induction l as [|x l IH]; intros k Hj e; simpl; [tauto|].
  intros [<-|H]; [assumption|]. apply (IH (k + 1)); [lia | assumption].
Qed.

(** An entry that comes before all of [l] in the input is inserted in
    front of the entries of [l] with the same key. *)
Lemma insert_stable (n : string) (x : Lodash.entry A) (l : list (Lodash.entry A)) :
  below (Lodash.index x) l ->
  List.filter (crit n) (Lodash.insert Lodash.compareMultiple x l)
  = List.filter (crit n) (x :: l).
Proof.
  induction l as [|y l IH]; intros H; [reflexivity|].
  cbn [Lodash.insert].
  destruct (Z.leb_spec (Lodash.compareMultiple x y) 0) as [Hc|Hc]; [reflexivity|].
  assert (IH' : List.filter (crit n) (Lodash.insert Lodash.compareMultiple x l)
                = List.filter (crit n) (x :: l)).
  { apply IH. intros e He. apply H. now right. }
  cbn [List.filter] in *. rewrite IH'.
  destruct (crit n x) eqn:Ex, (crit n y) eqn:Ey; try reflexivity.
  exfalso. unfold crit in Ex, Ey.
  apply bool_decide_eq_true in Ex. apply bool_decide_eq_true in Ey.
  assert (Lodash.compareMultiple x y <= 0); [|lia].
  apply compareMultiple_earlier.
  - rewrite Ex, Ey. apply name_le_refl.
  - apply H. now left.
Qed.

Lemma sort_stable (n : string) (k : Z) (l : list A) :
  List.filter (crit n) (Lodash.sort Lodash.compareMultiple (Lodash.entries iteratee k l))
  = List.filter (crit n) (Lodash.entries iteratee k l).
Proof.
  revert k. induction l as [|x l IH]; intros k; [reflexivity|].
  cbn [Lodash.entries Lodash.sort]. rewrite insert_stable.
  - cbn [List.filter]. now rewrite IH.
  - intros e He. cbn [Lodash.index].
    apply (entries_below (k + 1) k l); [lia|].
    eapply Permutation_in; [apply sort_perm | exact He].
Qed.

(** Sorting a list whose names are already in order gives it back. *)
Lemma sort_sorted_id (k : Z) (l : list A) :
  Sorted (fun a b => name_le (iteratee a) (iteratee b)) l ->
  Lodash.sort Lodash.compareMultiple (Lodash.entries iteratee k l)
  = Lodash.entries iteratee k l.
Proof.
  revert k. induction l as [|x l IH]; intros k H; [reflexivity|].
  inversion H as [|? ? Hl Hx]; subst.
  cbn [Lodash.entries Lodash.sort]. rewrite IH by assumption.
  destruct l as [|y l]; [reflexivity|].
  cbn [Lodash.entries Lodash.insert].
  destruct (Z.leb_spec
              (Lodash.compareMultiple (Lodash.mkEntry (iteratee x) k x)
                 (Lodash.mkEntry (iteratee y) (k + 1) y)) 0) as [Hc|Hc];
    [reflexivity|].
  exfalso. assert (Lodash.compareMultiple (Lodash.mkEntry (iteratee x) k x)
                     (Lodash.mkEntry (iteratee y) (k + 1) y) <= 0); [|lia].
  apply compareMultiple_earlier; cbn; [|lia]. now inversion Hx.
Qed.

Lemma keyed_sorted (es : list (Lodash.entry A)) :
  keyed es ->
  Sorted (fun a b => name_le (Lodash.criteria a) (Lodash.criteria b)) es ->
  Sorted (fun a b => name_le (iteratee a) (iteratee b)) (map Lodash.value es).
Proof.
  induction es as [|e es IH]; intros Hk H; simpl; [constructor|].
  inversion H as [|? ? Hes He]; subst. constructor.
  - apply IH; [|assumption]. intros e' He'. apply Hk. now right.
  - destruct es as [|e' es]; simpl; constructor.
    inversion He; subst.
    rewrite <- (Hk e), <- (Hk e'); [assumption | right; now left | now left].
Qed.

Lemma keyed_filter (n : string) (es : list (Lodash.entry A)) :
  keyed es ->
  map Lodash.value (List.filter (crit n) es)
  = List.filter (fun a => bool_decide (iteratee a = n)) (map Lodash.value es).
Proof.
  induction es as [|e es IH]; intros Hk; simpl; [reflexivity|].
  unfold crit at 1. rewrite (Hk e) by now left.
  rewrite <- IH by (intros e' He'; apply Hk; now right).
  destruct (bool_decide (iteratee (Lodash.value e) = n)); reflexivity.
Qed.

Lemma sortBy_perm (l : list A) : Permutation (Lodash.sortBy l iteratee) l.
Proof.
  unfold Lodash.sortBy.
  rewrite <- (entries_value 0 l) at 2. apply Permutation_map, sort_perm.
Qed.

Lemma sortBy_sorted (l : list A) :
  StronglySorted (fun a b => name_le (iteratee a) (iteratee b)) (Lodash.sortBy l iteratee).
Proof.
  apply Sorted_StronglySorted.
  - intros a b c. apply name_le_trans.
  - apply keyed_sorted; [|apply sort_sorted].
    intros e He. apply (entries_keyed 0 l).
    eapply Permutation_in; [apply sort_perm | exact He].
Qed.

Lemma sortBy_stable (n : string) (l : list A) :
  List.filter (fun a => bool_decide (iteratee a = n)) (Lodash.sortBy l iteratee)
  = List.filter (fun a => bool_decide (iteratee a = n)) l.
Proof.
  unfold Lodash.sortBy. rewrite <- keyed_filter.
  - rewrite sort_stable, keyed_filter by apply entries_keyed.
    now rewrite entries_value.
  - intros e He. apply (entries_keyed 0 l).
    eapply Permutation_in; [apply sort_perm | exact He].
Qed.

Lemma sortBy_sorted_id (l : list A) :
  Sorted (fun a b => name_le (iteratee a) (iteratee b)) l ->
  Lodash.sortBy l iteratee = l.
Proof.
  intros H. unfold Lodash.sortBy. rewrite sort_sorted_id by assumption.
  apply entries_value.
Qed.

End SortBy.

(** ** The merge engine *)

Lemma merge_perm (C X : list IBeer) :
  Permutation (unionAndSortBeers C X)
    (Lodash.unionWith C X (fun a b => id a =? id b)).
Proof. apply sortBy_perm. Qed.

Lemma merge_NoDup (C X : list IBeer) : List.NoDup (map id (unionAndSortBeers C X)).
Proof.
  eapply Permutation_NoDup.
  - apply Permutation_map. symmetry. apply merge_perm.
  - apply (baseUniq_NoDup id).
Qed.

Lemma merge_ids (C X : list IBeer) (i : Z) :
  In i (map id (unionAndSortBeers C X)) <-> In i (map id (C ++ X)).
Proof.
  rewrite <- (baseUniq_keys id (C ++ X) i). split; apply Permutation_in.
  - apply Permutation_map, merge_perm.
  - apply Permutation_map. symmetry. apply merge_perm.
Qed.

(** The entries of the merge with a given id: the first entry with that
    id of the catalog followed by the incoming list. *)
Lemma merge_withId (C X : list IBeer) (i : Z) :
  withId i (unionAndSortBeers C X)
  = match find (fun b => id b =? i) (C ++ X) with Some b => [b] | None => [] end.
Proof.
  unfold withId.
  rewrite (filter_has_NoDup id) by apply merge_NoDup.
  destruct (find (fun b => id b =? i) (C ++ X)) as [b|] eqn:F.
  - assert (Hin : In b (unionAndSortBeers C X)).
    { eapply Permutation_in; [symmetry; apply merge_perm|].
      rewrite <- (baseUniq_find id) in F. now apply find_some in F. }
    apply find_some in F. destruct F as [_ Hb].
    pose proof (filter_has_NoDup id (unionAndSortBeers C X) i (merge_NoDup C X)) as E.
    destruct (find (fun a => id a =? i) (unionAndSortBeers C X)) as [b'|] eqn:F'.
    + assert (Hb' : In b (List.filter (fun a => id a =? i) (unionAndSortBeers C X)))
        by (apply filter_In; auto).
      rewrite E in Hb'. destruct Hb' as [->|[]]. reflexivity.
    + exfalso. eapply find_none in F'; [|exact Hin]. simpl in F'. congruence.
  - destruct (find (fun a => id a =? i) (unionAndSortBeers C X)) as [b'|] eqn:F';
      [|reflexivity].
    exfalso. apply find_some in F'. destruct F' as [Hin Hb'].
    apply (find_has_None id) in F. apply F. apply merge_ids.
    apply Z.eqb_eq in Hb'. subst i. now apply in_map.
Qed.

Example merge_keeps_existing_and_sorts :
  unionAndSortBeers [mkBeer 2 "Punk" "x"; mkBeer 1 "Buzz" "old"]
                    [mkBeer 1 "Buzz" "new"; mkBeer 3 "Ale" "y"]
  = [mkBeer 3 "Ale" "y"; mkBeer 1 "Buzz" "old"; mkBeer 2 "Punk" "x"].
Proof. reflexivity. Qed.

Example merge_equal_names_keep_their_order :
  unionAndSortBeers [mkBeer 9 "Buzz" ""; mkBeer 4 "Ale" ""] [mkBeer 2 "Buzz" ""]
  = [mkBeer 4 "Ale" ""; mkBeer 9 "Buzz" ""; mkBeer 2 "Buzz" ""].
Proof. reflexivity. Qed.

(** C1, as the code has it: an id that occurs in the catalog and in the
    incoming list is carried exactly once by the merge, and the entry carried
    is the first one of the catalog with that id (the existing entry is kept,
    the incoming one is dropped); the merge never holds two entities with the
    same id. *)
Theorem merge_existing_wins (C X : list IBeer) (i : Z) :
  In i (map id C) -> In i (map id X) ->
  (exists b, find_id C i = Some b /\ In b C
             /\ withId i (unionAndSortBeers C X) = [b])
  /\ List.NoDup (map id (unionAndSortBeers C X)).
Proof.
  intros HC _. split; [|apply merge_NoDup].
  destruct (find_id C i) as [b|] eqn:F.
  - exists b. split; [reflexivity|]. split; [now apply find_some in F|].
    rewrite merge_withId.
    rewrite (find_has_app id). unfold find_id in F. now rewrite F.
  - exfalso. now apply (find_has_None id) in F.
Qed.

Lemma merge_existing_wins_witness :
  In 1 (map id [mkBeer 1 "Buzz" "old"])
  /\ In 1 (map id [mkBeer 1 "Buzz" "new"])
  /\ (exists b, find_id [mkBeer 1 "Buzz" "old"] 1 = Some b
             /\ In b [mkBeer 1 "Buzz" "old"]
             /\ withId 1 (unionAndSortBeers [mkBeer 1 "Buzz" "old"]
                            [mkBeer 1 "Buzz" "new"]) = [b])
  /\ List.NoDup (map id (unionAndSortBeers [mkBeer 1 "Buzz" "old"]
                           [mkBeer 1 "Buzz" "new"])).
Proof.
  split; [simpl; left; reflexivity|]. split; [simpl; left; reflexivity|].
  apply (merge_existing_wins [mkBeer 1 "Buzz" "old"] [mkBeer 1 "Buzz" "new"] 1);
    simpl; left; reflexivity.
Defined.

(** C1, as stated, fails: with one beer in the catalog and an incoming beer
    of the same id, the merge carries the beer of the catalog. *)
Lemma merge_incoming_does_not_win :
  ~ incoming_wins [mkBeer 1 "Buzz" "old"] [mkBeer 1 "Buzz" "new"].
Proof.
  intros H. destruct (H 1) as [b [Hb E]]; [now left | now left |].
  vm_compute in E. destruct Hb as [<-|[]]. discriminate.
Qed.

(** C5: merging the same incoming list a second time changes nothing. *)
Theorem merge_idempotent (C X : list IBeer) :
  unionAndSortBeers (unionAndSortBeers C X) X = unionAndSortBeers C X.
Proof.
  unfold unionAndSortBeers at 1.
  rewrite (unionWith_absorb id).
  - apply sortBy_sorted_id. apply StronglySorted_Sorted.
    apply (sortBy_sorted name).
  - apply merge_NoDup.
  - intros y Hy. apply merge_ids. rewrite map_app, in_app_iff. right.
    now apply in_map.
Qed.

(** C6: the merge is in ascending order of name, beers of the same name
    stand in the order they have in the union (the catalog first, then the
    new beers), and no two beers share an id. *)
Theorem merge_sorted_stable_unique (C X : list IBeer) :
  sortedByName (unionAndSortBeers C X)
  /\ (forall n, named n (unionAndSortBeers C X)
                = named n (Lodash.unionWith C X (fun a b => id a =? id b)))
  /\ List.NoDup (map id (unionAndSortBeers C X)).
Proof.
  split; [apply (sortBy_sorted name)|].
  split; [intros n; apply (sortBy_stable name)|].
  apply merge_NoDup.
Qed.

(** ** The reaction before it hands control back *)

Lemma same_but_cache_refl (s : BeersState) : same_but_cache s s.
Proof. repeat split. Qed.

Lemma same_but_cache_trans (s1 s2 s3 : BeersState) :
  same_but_cache s1 s2 -> same_but_cache s2 s3 -> same_but_cache s1 s3.
Proof.
  unfold same_but_cache.
  intros (A1 & A2 & A3 & A4 & A5 & A6 & A7 & A8) (B1 & B2 & B3 & B4 & B5 & B6 & B7 & B8).
  repeat split; congruence.
Qed.

Lemma react_loadBeer_frame (i : Z) (s : BeersState) :
  same_but_cache s (fst (react_loadBeer i s)).
Proof.
  unfold react_loadBeer. destruct (find_id (beers s) i); [apply same_but_cache_refl|].
  cbv zeta. destruct (bool_decide _); repeat split.
Qed.

Lemma react_loadEach_frame (ids : list Z) (s : BeersState) :
  same_but_cache s (fst (react_loadEach ids s)).
Proof.
  revert s. induction ids as [|i ids IH]; intros s; [apply same_but_cache_refl|].
  cbn [react_loadEach]. pose proof (react_loadBeer_frame i s) as H1.
  destruct (react_loadBeer i s) as [s1 first]. cbn [fst] in H1.
  pose proof (IH s1) as H2. destruct (react_loadEach ids s1) as [s2 others].
  cbn [fst] in *. exact (same_but_cache_trans _ _ _ H1 H2).
Qed.

(** The reaction writes the error text and the request cache only. *)
Lemma react_frame (s : BeersState) : same_but_cache s (fst (react s)).
Proof.
  unfold react. destruct (_ =? _)%nat; [apply same_but_cache_refl|].
  apply react_loadEach_frame.
Qed.

Lemma react_beers (s : BeersState) : beers (fst (react s)) = beers s.
Proof. apply react_frame. Qed.

Lemma react_likedBeerIds (s : BeersState) :
  likedBeerIds (fst (react s)) = likedBeerIds s.
Proof. apply react_frame. Qed.

Lemma react_selectedBeer (s : BeersState) :
  selectedBeer (fst (react s)) = selectedBeer s.
Proof. apply react_frame. Qed.

(** What the calls of [loadBeer] for the ids leave: the error text is
    cleared when a beer is missing, the key of every beer that is fetched
    is [true], and the fetches are those of the missing beers whose key is
    not [done], in the order of the ids. *)
Lemma react_loadEach_spec (ids : list Z) (s : BeersState) :
  errorText (fst (react_loadEach ids s))
  = match missing_of s ids with [] => errorText s | _ :: _ => None end
  /\ (forall uri,
        uriMap (fst (react_loadEach ids s)) !! uri
        = if bool_decide (uri ∈ map (fun i => beers_uri (Some i)) (fetched_of s ids))
          then Some true else uriMap s !! uri)
  /\ snd (react_loadEach ids s) = map get_beer (fetched_of s ids).
Proof.
  revert s. induction ids as [|i ids IH]; intros s.
  { split; [reflexivity|]. split; [|reflexivity]. intros uri.
    rewrite bool_decide_eq_false_2; [reflexivity|]. apply not_elem_of_nil. }
  cbn [react_loadEach]. unfold fetched_of, missing_of in *. cbn [List.filter].
  unfold react_loadBeer.
  assert (M : missing s i
              = match find_id (beers s) i with Some _ => false | None => true end)
    by reflexivity.
  destruct (find_id (beers s) i) as [b|] eqn:F; rewrite M.
  - specialize (IH s). destruct (react_loadEach ids s) as [s2 others].
    cbn [fst snd app] in *. exact IH.
  - cbv zeta. change (uriMap (dismissError s)) with (uriMap s).
    cbn [List.filter].
    destruct (bool_decide (uriMap s !! beers_uri (Some i) = Some false)) eqn:D;
      cbn [negb].
    + specialize (IH (dismissError s)).
      destruct (react_loadEach ids (dismissError s)) as [s2 others].
      cbn [fst snd app] in *. destruct IH as (E & U & S).
      split; [|split].
      * rewrite E. now destruct (List.filter (missing (dismissError s)) ids).
      * exact U.
      * exact S.
    + apply bool_decide_eq_false in D.
      set (s1 := set_uriMap (<[beers_uri (Some i) := true]> (uriMap s)) (dismissError s)).
      specialize (IH s1).
      assert (Hf : List.filter
                     (fun j => negb (bool_decide (uriMap s1 !! beers_uri (Some j) = Some false)))
                     (List.filter (missing s1) ids)
                   = List.filter
                       (fun j => negb (bool_decide (uriMap s !! beers_uri (Some j) = Some false)))
                       (List.filter (missing s) ids)).
      { change (missing s1) with (missing s). apply filter_ext. intros j.
        f_equal. apply bool_decide_ext. unfold s1. cbn [uriMap set_uriMap].
        destruct (decide (beers_uri (Some i) = beers_uri (Some j))) as [e|n].
        - rewrite <- e, lookup_insert_eq. split; [discriminate | intros H; contradiction].
        - now rewrite lookup_insert_ne. }
      rewrite Hf in IH. destruct (react_loadEach ids s1) as [s2 others].
      cbn [fst snd app map] in *. destruct IH as (E & U & S).
      split; [|split].
      * rewrite E. now destruct (List.filter (missing s1) ids).
      * intros uri. rewrite U. unfold s1. cbn [uriMap set_uriMap].
        destruct (decide (uri = beers_uri (Some i))) as [->|n].
        -- rewrite lookup_insert_eq.
           rewrite (bool_decide_eq_true_2 (_ ∈ _ :: _)) by (left).
           now destruct (bool_decide _).
        -- rewrite lookup_insert_ne by congruence.
           apply (f_equal (fun c : bool => if c then Some true else uriMap s !! uri)).
           apply bool_decide_ext. rewrite elem_of_cons. tauto.
      * now rewrite S.
Qed.

(** With no beer twice in the catalog the reaction comes to the calls of
    [loadBeer] for the liked ids: when the two lengths are equal every
    liked id is in the catalog, and every call returns at once. *)
Lemma react_loadEach_present (ids : list Z) (s : BeersState) :
  (forall i, In i ids -> In i (map id (beers s))) ->
  react_loadEach ids s = (s, []).
Proof.
  induction ids as [|i ids IH]; intros Hall; [reflexivity|].
  cbn [react_loadEach]. unfold react_loadBeer.
  destruct (find_id (beers s) i) eqn:F.
  - rewrite IH; [reflexivity|]. intros j Hj. apply Hall. now right.
  - exfalso. apply (find_has_None id) in F. apply F, Hall. now left.
Qed.

Lemma likedBeers_all_present (s : BeersState) :
  List.NoDup (map id (beers s)) ->
  length (likedBeerIds s) = length (likedBeers s) ->
  forall i, In i (likedBeerIds s) -> In i (map id (beers s)).
Proof.
  intros Hb Hlen.
  assert (Hi : incl (likedBeerIds s) (map id (likedBeers s))).
  { apply NoDup_length_incl.
    - unfold likedBeers. clear Hlen.
      induction (beers s) as [|b l IH]; simpl; [constructor|].
      inversion Hb as [|? ? Hn Hb']; subst.
      destruct (bool_decide (id b ∈ likedBeerIds s)); [|now apply IH].
      simpl. constructor; [|now apply IH].
      intros H. apply Hn. apply in_map_iff in H. destruct H as [x [Hx Hin]].
      apply filter_In in Hin. rewrite <- Hx. apply in_map. tauto.
    - rewrite length_map, Hlen. apply Nat.le_refl.
    - intros i Hin. apply in_map_iff in Hin. destruct Hin as [b [<- Hin]].
      apply filter_In in Hin. destruct Hin as [_ Hin].
      now apply bool_decide_eq_true, list_elem_of_In in Hin. }
  intros i Hin. apply Hi in Hin. apply in_map_iff in Hin.
  destruct Hin as [b [<- Hin]]. apply in_map. apply filter_In in Hin. tauto.
Qed.

Lemma react_loadEach_liked (s : BeersState) :
  List.NoDup (map id (beers s)) ->
  react s = react_loadEach (likedBeerIds s) s.
Proof.
  intros Hb. unfold react.
  destruct (length (likedBeerIds s) =? length (likedBeers s))%nat eqn:E; [|reflexivity].
  apply Nat.eqb_eq in E. symmetry. apply react_loadEach_present.
  now apply likedBeers_all_present.
Qed.

(** ** The store *)

Section Actions.

Variable API_BASE_URL : string.

(** When [wipe] has made its three assignments the reaction calls
    [loadBeer] for every liked id: no beer is in the catalog and no key is
    [done], so every call fetches. *)
Lemma wipe_reacts (s : BeersState) :
  let wiped := set_remainingRequests (Num 0) (set_uriMap ∅ (set_beers [] s)) in
  store_of (wipe s) = fst (react_loadEach (likedBeerIds s) wiped)
  /\ started (wipe s) = snd (react_loadEach (likedBeerIds s) wiped)
  /\ missing_of wiped (likedBeerIds s) = likedBeerIds s
  /\ fetched_of wiped (likedBeerIds s) = likedBeerIds s.
Proof.
  intros wiped.
  assert (M : missing_of wiped (likedBeerIds s) = likedBeerIds s).
  { unfold missing_of. induction (likedBeerIds s) as [|i l IH]; [reflexivity|].
    cbn [List.filter]. change (missing wiped i) with true. now rewrite IH. }
  assert (F : fetched_of wiped (likedBeerIds s) = likedBeerIds s).
  { unfold fetched_of. rewrite M. clear M.
    induction (likedBeerIds s) as [|i l IH]; [reflexivity|].
    cbn [List.filter]. change (uriMap wiped) with (∅ : gmap string bool) in *.
    rewrite lookup_empty. rewrite bool_decide_eq_false_2 by discriminate.
    cbn [negb]. now rewrite IH. }
  assert (R : react wiped = react_loadEach (likedBeerIds s) wiped)
    by (apply (react_loadEach_liked wiped); constructor).
  unfold wipe. cbn [store_of started]. fold wiped. rewrite R, app_nil_r.
  repeat split; assumption.
Qed.

(** C9, as the code has it: [wipe] empties the catalog and sets the quota
    counter to 0, and the liked ids, the comments, the selection, the
    beers info and the two flags are as before.  The request cache is
    emptied, and then the reaction, which runs before [wipe] returns, puts
    the key of every liked id in flight; the cache is empty afterwards
    exactly when no id is liked.  The error text is as before when no id
    is liked, and cleared otherwise. *)
Theorem wipe_effect (s : BeersState) :
  beers (store_of (wipe s)) = []
  /\ remainingRequests (store_of (wipe s)) = Num 0
  /\ likedBeerIds (store_of (wipe s)) = likedBeerIds s
  /\ commentsMap (store_of (wipe s)) = commentsMap s
  /\ selectedBeer (store_of (wipe s)) = selectedBeer s
  /\ beersInfo (store_of (wipe s)) = beersInfo s
  /\ isUploading (store_of (wipe s)) = isUploading s
  /\ isRehydrated (store_of (wipe s)) = isRehydrated s
  /\ (forall uri,
        fetchStatus (store_of (wipe s)) uri
        = if bool_decide (uri ∈ map (fun i => beers_uri (Some i)) (likedBeerIds s))
          then in_flight else absent)
  /\ (uriMap (store_of (wipe s)) = ∅ <-> likedBeerIds s = [])
  /\ errorText (store_of (wipe s))
     = match likedBeerIds s with [] => errorText s | _ :: _ => None end.
Proof.
  destruct (wipe_reacts s) as (E & _ & M & F). cbv zeta in *. rewrite E.
  set (wiped := set_remainingRequests (Num 0) (set_uriMap ∅ (set_beers [] s))) in *.
  destruct (react_loadEach_frame (likedBeerIds s) wiped)
    as (F1 & F2 & F3 & F4 & F5 & F6 & F7 & F8).
  destruct (react_loadEach_spec (likedBeerIds s) wiped) as (T & U & _).
  rewrite M in T. rewrite F in U.
  repeat (split; [assumption|]).
  split; [|split].
  - intros uri. unfold fetchStatus. rewrite U.
    destruct (bool_decide _); [reflexivity|].
    change (uriMap wiped) with (∅ : gmap string bool). now rewrite lookup_empty.
  - split.
    + intros Em. destruct (likedBeerIds s) as [|i l]; [reflexivity|]. exfalso.
      specialize (U (beers_uri (Some i))). rewrite Em, lookup_empty in U.
      rewrite bool_decide_eq_true_2 in U by (cbn [map]; left). discriminate.
    + intros El. apply map_eq. intros uri. rewrite U, El, lookup_empty.
      rewrite bool_decide_eq_false_2 by apply not_elem_of_nil.
      change (uriMap wiped) with (∅ : gmap string bool). apply lookup_empty.
  - rewrite T. now destruct (likedBeerIds s).
Qed.

(** C9, as stated, fails with a liked id: before [wipe] returns the
    reaction of the store has called [loadBeer] for the id, which has
    cleared the error text and put the key of the id in flight. *)
Lemma wipe_with_liked_id_refetches :
  fetchStatus
    (store_of (wipe (set_errorText (Some "Failed to fetch")
                       (set_likedBeerIds [7] initial))))
    (beers_uri (Some 7)) = in_flight
  /\ errorText
       (store_of (wipe (set_errorText (Some "Failed to fetch")
                          (set_likedBeerIds [7] initial)))) = None
  /\ started (wipe (set_errorText (Some "Failed to fetch")
                      (set_likedBeerIds [7] initial)))
     = [(beers_uri (Some 7), None)]
  /\ ~ reset_keeps_the_rest
        (set_errorText (Some "Failed to fetch") (set_likedBeerIds [7] initial)).
Proof.
  split; [reflexivity|]. split; [reflexivity|]. split; [reflexivity|].
  unfold reset_keeps_the_rest. cbv zeta. intros (_ & _ & _ & _ & _ & _ & H & _).
  vm_compute in H. discriminate.
Qed.

(** *** The upload that follows a change *)

Lemma upload_store (auth : AuthState) (s : BeersState) :
  store_of (uploadStateToUserProfile API_BASE_URL auth s)
  = match auth with
    | Anonymous => s
    | Authenticated _ => set_isUploading true s
    end.
Proof. destruct auth; reflexivity. Qed.

Lemma upload_returned (auth : AuthState) (s : BeersState) :
  returned (uploadStateToUserProfile API_BASE_URL auth s)
  = match auth with Anonymous => Some (Fulfilled tt) | Authenticated _ => None end.
Proof. destruct auth; reflexivity. Qed.

Lemma upload_keeps (auth : AuthState) (s : BeersState) :
  let s' := store_of (uploadStateToUserProfile API_BASE_URL auth s) in
  beers s' = beers s /\ likedBeerIds s' = likedBeerIds s
  /\ commentsMap s' = commentsMap s.
Proof. rewrite upload_store. destruct auth; repeat split. Qed.

(** *** [setComment] *)

(** C8, as the code has it: [setComment] throws when no beer of the
    catalog has the id, and the store (the comments with it) is then as
    before; when there is one, a text that is not empty becomes the entry
    of the id, and [null] or the empty text deletes the entry. *)
Theorem setComment_spec (auth : AuthState) (i : Z) (comment : option string)
    (s : BeersState) :
  let call := setComment API_BASE_URL auth i comment s in
  match find_id (beers s) i with
  | None =>
      call = Throw s (mkError
               "You are not allowed to setComment on beers not within our cache!")
  | Some _ =>
      returned call = Some (Fulfilled tt)
      /\ commentsMap (store_of call)
         = match comment with
           | Some text =>
               if bool_decide (text = "") then delete (pretty i) (commentsMap s)
               else <[pretty i := text]> (commentsMap s)
           | None => delete (pretty i) (commentsMap s)
           end
  end.
Proof.
  unfold setComment. destruct (find_id (beers s) i); [|reflexivity].
  cbn [forget returned store_of]. split; [reflexivity|].
  rewrite upload_store.
  destruct auth, comment as [text|]; try destruct (bool_decide (text = ""));
    reflexivity.
Qed.

(** C8, as stated, fails: the empty text is not [null], and it deletes. *)
Lemma setComment_empty_text_deletes :
  find_id (beers (set_beers [mkBeer 1 "Buzz" ""] initial)) 1
  = Some (mkBeer 1 "Buzz" "")
  /\ ~ text_sets_entry "" Anonymous 1 "" (set_beers [mkBeer 1 "Buzz" ""] initial).
Proof. split; [reflexivity|]. unfold text_sets_entry. vm_compute. discriminate. Qed.

(** *** [toggleLikeBeer] *)

(** A beer is liked when it is in the catalog and its id is in the list. *)
Lemma isLikedBeer_spec (s : BeersState) (i : Z) :
  isLikedBeer s i = true <-> In i (map id (beers s)) /\ In i (likedBeerIds s).
Proof.
  unfold isLikedBeer, find_id, likedBeers.
  destruct (find (fun beer => id beer =? i)
              (List.filter (fun beer => bool_decide (id beer ∈ likedBeerIds s))
                 (beers s))) as [b|] eqn:F.
  - apply find_some in F. destruct F as [Hb Hi]. apply Z.eqb_eq in Hi.
    apply filter_In in Hb. destruct Hb as [Hb Hl].
    apply bool_decide_eq_true, list_elem_of_In in Hl. subst i.
    split; [intros _|reflexivity]. split; [now apply in_map | assumption].
  - split; [discriminate|]. intros [Hb Hl]. exfalso.
    apply in_map_iff in Hb. destruct Hb as [b [Hi Hb]].
    assert (Hf : (id b =? i) = false).
    { apply (find_none _ _ F b). apply filter_In. split; [assumption|].
      apply bool_decide_eq_true, list_elem_of_In. now rewrite Hi. }
    apply Z.eqb_neq in Hf. contradiction.
Qed.

Lemma toggle_likedBeerIds (auth : AuthState) (i : Z) (s : BeersState) :
  likedBeerIds (store_of (toggleLikeBeer API_BASE_URL auth i s))
  = if isLikedBeer s i
    then List.filter (fun item => negb (item =? i)) (likedBeerIds s)
    else likedBeerIds s ++ [i].
Proof.
  unfold toggleLikeBeer. cbn [forget store_of]. rewrite react_likedBeerIds.
  destruct (upload_keeps auth
              (if negb (isLikedBeer s i)
               then set_likedBeerIds (likedBeerIds s ++ [i]) s
               else set_likedBeerIds
                      (List.filter (fun item => negb (item =? i)) (likedBeerIds s)) s))
    as [_ [-> _]].
  destruct (isLikedBeer s i); reflexivity.
Qed.

Lemma toggle_beers (auth : AuthState) (i : Z) (s : BeersState) :
  beers (store_of (toggleLikeBeer API_BASE_URL auth i s)) = beers s.
Proof.
  unfold toggleLikeBeer. cbn [forget store_of]. rewrite react_beers.
  destruct (upload_keeps auth
              (if negb (isLikedBeer s i)
               then set_likedBeerIds (likedBeerIds s ++ [i]) s
               else set_likedBeerIds
                      (List.filter (fun item => negb (item =? i)) (likedBeerIds s)) s))
    as [-> _].
  destruct (isLikedBeer s i); reflexivity.
Qed.

Lemma removed_not_in (i : Z) (l : list Z) :
  ~ In i (List.filter (fun item => negb (item =? i)) l).
Proof.
  intros H. apply filter_In in H. destruct H as [_ H].
  now rewrite Z.eqb_refl in H.
Qed.

(** C4, as the code has it: for a beer that is in the catalog,
    [toggleLikeBeer] appends the id exactly when the id is not in the list
    of liked ids and removes all its occurrences otherwise, and two calls
    in a row leave the id in the list exactly when it was in it; so they do
    when something that keeps the catalog and the list runs between the
    two calls. *)
Theorem toggle_present (auth : AuthState) (i : Z) (s : BeersState) :
  In i (map id (beers s)) ->
  likedBeerIds (store_of (toggleLikeBeer API_BASE_URL auth i s))
  = (if bool_decide (i ∈ likedBeerIds s)
     then List.filter (fun item => negb (item =? i)) (likedBeerIds s)
     else likedBeerIds s ++ [i])
  /\ toggle_twice_restores API_BASE_URL auth i s
  /\ (forall between auth',
        beers between = beers (store_of (toggleLikeBeer API_BASE_URL auth i s)) ->
        likedBeerIds between
        = likedBeerIds (store_of (toggleLikeBeer API_BASE_URL auth i s)) ->
        i ∈ likedBeerIds (store_of (toggleLikeBeer API_BASE_URL auth' i between))
        <-> i ∈ likedBeerIds s).
Proof.
  intros Hb.
  assert (Hliked : forall s', beers s' = beers s ->
            isLikedBeer s' i = bool_decide (i ∈ likedBeerIds s')).
  { intros s' E. destruct (isLikedBeer s' i) eqn:L; symmetry.
    - apply isLikedBeer_spec in L. apply bool_decide_eq_true, list_elem_of_In, L.
    - apply bool_decide_eq_false. intros H. apply list_elem_of_In in H.
      assert (isLikedBeer s' i = true); [|congruence].
      apply isLikedBeer_spec. now rewrite E. }
  assert (Hgen : forall between auth',
            beers between = beers (store_of (toggleLikeBeer API_BASE_URL auth i s)) ->
            likedBeerIds between
            = likedBeerIds (store_of (toggleLikeBeer API_BASE_URL auth i s)) ->
            i ∈ likedBeerIds (store_of (toggleLikeBeer API_BASE_URL auth' i between))
            <-> i ∈ likedBeerIds s).
  { intros between auth' Eb El. rewrite toggle_beers in Eb.
    rewrite !list_elem_of_In, toggle_likedBeerIds, (Hliked _ Eb), El.
    rewrite toggle_likedBeerIds, (Hliked s eq_refl).
    destruct (bool_decide (i ∈ likedBeerIds s)) eqn:M.
    + apply bool_decide_eq_true, list_elem_of_In in M.
      rewrite bool_decide_eq_false_2
        by (rewrite list_elem_of_In; apply removed_not_in).
      rewrite in_app_iff. simpl. tauto.
    + apply bool_decide_eq_false in M. rewrite list_elem_of_In in M.
      rewrite bool_decide_eq_true_2
        by (rewrite list_elem_of_In, in_app_iff; simpl; tauto).
      split; [intros H; now apply removed_not_in in H | tauto]. }
  split; [|split].
  - rewrite toggle_likedBeerIds, (Hliked s); reflexivity.
  - apply Hgen; reflexivity.
  - exact Hgen.
Qed.

End Actions.

Lemma toggle_present_witness :
  In 1 (map id (beers (set_beers [mkBeer 1 "Buzz" ""] initial)))
  /\ likedBeerIds (store_of (toggleLikeBeer "" Anonymous 1
                               (set_beers [mkBeer 1 "Buzz" ""] initial))) = [1]
  /\ likedBeerIds
       (store_of (toggleLikeBeer "" Anonymous 1
                    (store_of (toggleLikeBeer "" Anonymous 1
                                 (set_beers [mkBeer 1 "Buzz" ""] initial))))) = []
  /\ toggle_twice_restores "" Anonymous 1 (set_beers [mkBeer 1 "Buzz" ""] initial).
Proof.
  split; [simpl; left; reflexivity|]. split; [reflexivity|]. split; [reflexivity|].
  refine (proj1 (proj2 (toggle_present "" Anonymous 1
                          (set_beers [mkBeer 1 "Buzz" ""] initial) _))).
  simpl. left. reflexivity.
Defined.

(** C4, as stated, fails: for a beer that is not in the catalog both calls
    append, and an id that was not liked is in the list twice. *)
Lemma toggle_absent_not_restored :
  likedBeerIds (store_of (toggleLikeBeer "" Anonymous 7
                  (store_of (toggleLikeBeer "" Anonymous 7 initial)))) = [7; 7]
  /\ ~ toggle_twice_restores "" Anonymous 7 initial.
Proof.
  split; [reflexivity|]. unfold toggle_twice_restores. cbv zeta.
  change (likedBeerIds (store_of (toggleLikeBeer "" Anonymous 7
            (store_of (toggleLikeBeer "" Anonymous 7 initial))))) with [7; 7].
  change (likedBeerIds initial) with (@nil Z).
  intros [H _]. apply (not_elem_of_nil 7). apply H. now left.
Qed.

(** ** The request cache *)

Lemma getBeersApi_done (parseInt : string -> number) (i : option Z) (s : BeersState) :
  fetchStatus s (beers_uri i) = done ->
  getBeersApi parseInt i s = Return (dismissError s) (beers s).
Proof.
  unfold fetchStatus, getBeersApi. cbn [dismissError set_errorText uriMap].
  destruct (uriMap s !! beers_uri i) as [[|]|]; try discriminate. reflexivity.
Qed.

Lemma getBeersApi_not_done (parseInt : string -> number) (i : option Z)
    (s : BeersState) :
  fetchStatus s (beers_uri i) <> done ->
  exists k,
    getBeersApi parseInt i s
    = Await (set_uriMap (<[beers_uri i := true]> (uriMap s)) (dismissError s))
        (fetch (beers_uri i) None) k
    /\ forall env n, fetches_from env (S n) (k (settle env n _ (fetch (beers_uri i) None))
                                         (interfere env n
                                            (set_uriMap (<[beers_uri i := true]> (uriMap s))
                                               (dismissError s)))) = [].
Proof.
  unfold fetchStatus, getBeersApi. cbn [dismissError set_errorText uriMap].
  intros H. rewrite bool_decide_eq_false_2.
  - eexists. split; [reflexivity|]. intros env n. cbv beta.
    destruct (settle env n Response (fetch (beers_uri i) None)) as [res|e];
      [|reflexivity].
    destruct (negb (status res =? 200)); [reflexivity|]. cbn [fetches_from].
    destruct (settle env (S n) (list IBeer) (json_beers res)); reflexivity.
  - destruct (uriMap s !! beers_uri i) as [[|]|]; congruence.
Qed.

Lemma fetchStatus_begun (uri : string) (s : BeersState) :
  fetchStatus (set_uriMap (<[uri := true]> (uriMap s)) (dismissError s)) uri = in_flight.
Proof. unfold fetchStatus. cbn [uriMap set_uriMap]. now rewrite lookup_insert_eq. Qed.

(** C3, as the code has it: a call for a key that is [done] leaves the key
    [done], fetches nothing and returns the catalog; a call for a key that
    is [absent] or [in_flight] sets the key [in_flight] and fetches.  Only
    [done] makes the call reuse the catalog. *)
Theorem getBeersApi_begin (parseInt : string -> number) (i : option Z) (s : BeersState) :
  let call := getBeersApi parseInt i s in
  match fetchStatus s (beers_uri i) with
  | done =>
      call = Return (dismissError s) (beers s)
      /\ fetching call = None
      /\ fetchStatus (store_of call) (beers_uri i) = done
  | _ =>
      fetching call = Some (beers_uri i)
      /\ returned call = None
      /\ fetchStatus (store_of call) (beers_uri i) = in_flight
  end.
Proof.
  cbv zeta. destruct (fetchStatus s (beers_uri i)) eqn:E.
  - destruct (getBeersApi_not_done parseInt i s) as [k [-> _]]; [congruence|].
    cbn [fetching returned store_of]. now rewrite fetchStatus_begun.
  - destruct (getBeersApi_not_done parseInt i s) as [k [-> _]]; [congruence|].
    cbn [fetching returned store_of]. now rewrite fetchStatus_begun.
  - rewrite getBeersApi_done by assumption. cbn [fetching store_of].
    repeat split. exact E.
Qed.

(** C3, as stated, fails: the key of the whole collection is [done], and
    the call returns the catalog without a fetch. *)
Lemma done_key_is_not_fetched_again :
  fetchStatus (set_uriMap {[beers_uri None := false]} initial) (beers_uri None) = done
  /\ ~ refetches_when_done parseInt_decimal None
         (set_uriMap {[beers_uri None := false]} initial).
Proof.
  split; [reflexivity|]. intros H. destruct H as [H _]; [reflexivity|].
  vm_compute in H. discriminate.
Qed.

(** C2, as the code has it: two calls for the same key that overlap both
    fetch.  The first call, for a key that is not [done], makes one fetch
    and waits with the key [in_flight]; a second call that starts while
    the key is [in_flight] makes one fetch of its own. *)
Theorem overlapping_calls_both_fetch (parseInt : string -> number) (i : option Z)
    (s s2 : BeersState) (env1 env2 : environment) :
  fetchStatus s (beers_uri i) <> done ->
  fetchStatus s2 (beers_uri i) = in_flight ->
  let first := getBeersApi parseInt i s in
  let second := getBeersApi parseInt i s2 in
  fetches env1 first = [beers_uri i]
  /\ fetchStatus (store_of first) (beers_uri i) = in_flight
  /\ fetches env2 second = [beers_uri i]
  /\ returned second = None.
Proof.
  intros H1 H2. cbv zeta.
  destruct (getBeersApi_not_done parseInt i s H1) as [k1 [-> F1]].
  destruct (getBeersApi_not_done parseInt i s2) as [k2 [-> F2]]; [congruence|].
  unfold fetches. cbn [fetches_from store_of returned].
  rewrite F1, F2, fetchStatus_begun. auto.
Qed.

Lemma overlapping_calls_both_fetch_witness :
  fetchStatus initial (beers_uri None) <> done
  /\ fetchStatus (store_of (getBeersApi parseInt_decimal None initial)) (beers_uri None)
     = in_flight
  /\ fetches (serving []) (getBeersApi parseInt_decimal None initial) = [beers_uri None]
  /\ fetchStatus (store_of (getBeersApi parseInt_decimal None initial))
       (beers_uri None) = in_flight
  /\ fetches offline
       (getBeersApi parseInt_decimal None
          (store_of (getBeersApi parseInt_decimal None initial)))
     = [beers_uri None]
  /\ returned (getBeersApi parseInt_decimal None
                 (store_of (getBeersApi parseInt_decimal None initial))) = None.
Proof.
  split; [vm_compute; discriminate|]. split; [vm_compute; reflexivity|].
  apply (overlapping_calls_both_fetch parseInt_decimal None initial
           (store_of (getBeersApi parseInt_decimal None initial))
           (serving []) offline).
  - vm_compute. discriminate.
  - vm_compute. reflexivity.
Defined.

(** C2, as stated, fails: the second call, started while the first one waits
    for its fetch, fetches too. *)
Lemma in_flight_key_is_fetched_again :
  fetchStatus (store_of (getBeersApi parseInt_decimal None initial)) (beers_uri None)
  = in_flight
  /\ ~ second_call_reuses parseInt_decimal None initial.
Proof.
  split; [reflexivity|]. intros H. destruct H as [H _]; [reflexivity|].
  vm_compute in H. discriminate.
Qed.

(** ** Runs of [await] *)

Lemma run_from_await {A B} (env : environment) (t : task A)
    (k : settled A -> BeersState -> task B) (n : nat) :
  run_from env n (await t k)
  = run_from env (S (suspensions (run_from env n t)))
      (k (outcome (run_from env n t))
         (interfere env (suspensions (run_from env n t)) (store (run_from env n t)))).
Proof.
  revert B k n.
  induction t as [A s a | A s e | A R s io k' IH | A s k' IH | A C child _ rest IH
                 | A s k' IH];
    intros B k n; cbn [await run_from suspensions outcome store]; auto.
Qed.

Lemma fetches_from_await {A B} (env : environment) (t : task A)
    (k : settled A -> BeersState -> task B) (n : nat) :
  fetches_from env n (await t k)
  = fetches_from env n t
    ++ fetches_from env (S (suspensions (run_from env n t)))
         (k (outcome (run_from env n t))
            (interfere env (suspensions (run_from env n t)) (store (run_from env n t)))).
Proof.
  revert B k n.
  induction t as [A s a | A s e | A R s io k' IH | A s k' IH | A C child _ rest IH
                 | A s k' IH];
    intros B k n; cbn [await run_from fetches_from suspensions outcome store]; auto.
  rewrite IH. now rewrite app_assoc.
Qed.

(** ** [getBeersApi] and [loadBeer] to their end *)

(** A fetch that succeeds: the key is [done] and the beers are returned. *)
Lemma getBeersApi_run_ok (parseInt : string -> number) (i : option Z)
    (s : BeersState) (env : environment) (n : nat) (res : Response) (l : list IBeer) :
  fetchStatus s (beers_uri i) <> done ->
  settle env n _ (fetch (beers_uri i) None) = Fulfilled res ->
  status res = 200 ->
  settle env (S n) _ (json_beers res) = Fulfilled l ->
  let e := run_from env n (getBeersApi parseInt i s) in
  suspensions e = S (S n)
  /\ outcome e = Fulfilled l
  /\ fetchStatus (store e) (beers_uri i) = done.
Proof.
  intros Hd Hf Hs Hj. unfold getBeersApi, fetchStatus in *.
  cbn [dismissError set_errorText uriMap] in *.
  rewrite bool_decide_eq_false_2
    by (destruct (uriMap s !! beers_uri i) as [[|]|]; congruence).
  cbn [run_from]. rewrite Hf, Hs. cbn [negb Z.eqb Pos.eqb run_from]. rewrite Hj.
  cbn [run_from suspensions outcome store uriMap set_uriMap]. rewrite lookup_insert_eq. auto.
Qed.

(** A fetch that fails: the key is [absent] again, the error text is the
    message, and no beers are returned. *)
Lemma getBeersApi_run_rejected (parseInt : string -> number) (i : option Z)
    (s : BeersState) (env : environment) (n : nat) (e : Error) :
  fetchStatus s (beers_uri i) <> done ->
  settle env n _ (fetch (beers_uri i) None) = Rejected e ->
  let r := run_from env n (getBeersApi parseInt i s) in
  suspensions r = S n
  /\ outcome r = Fulfilled []
  /\ fetchStatus (store r) (beers_uri i) = absent
  /\ errorText (store r) = Some (message e).
Proof.
  intros Hd Hf. unfold getBeersApi, fetchStatus in *.
  cbn [dismissError set_errorText uriMap] in *.
  rewrite bool_decide_eq_false_2
    by (destruct (uriMap s !! beers_uri i) as [[|]|]; congruence).
  cbn [run_from]. rewrite Hf.
  cbn [run_from suspensions outcome store uriMap set_uriMap set_errorText errorText].
  rewrite lookup_delete_eq. auto.
Qed.

(** [getBeersApi] never rejects. *)
Lemma getBeersApi_fulfils (parseInt : string -> number) (i : option Z)
    (s : BeersState) (env : environment) (n : nat) :
  exists l, outcome (run_from env n (getBeersApi parseInt i s)) = Fulfilled l.
Proof.
  unfold getBeersApi.
  destruct (bool_decide (uriMap (dismissError s) !! beers_uri i = Some false));
    [eexists; reflexivity|].
  cbn [run_from].
  destruct (settle env n Response (fetch (beers_uri i) None)) as [res|e];
    [|eexists; reflexivity].
  destruct (negb (status res =? 200)); [eexists; reflexivity|].
  cbn [run_from].
  destruct (settle env (S n) (list IBeer) (json_beers res)); eexists; reflexivity.
Qed.

(** The only fetch that [loadBeer(0)] can make is for the whole
    collection, and it makes none when that key is [done]. *)
Lemma fetches_of_loadBeer_zero (parseInt : string -> number) (s : BeersState)
    (env : environment) :
  find_id (beers s) 0 = None ->
  fetches env (loadBeer parseInt 0 s)
  = if bool_decide (fetchStatus s (beers_uri None) = done) then []
    else [beers_uri None].
Proof.
  intros Habs. unfold loadBeer, fetches. rewrite Habs, fetches_from_await.
  change (beers_uri (Some 0)) with (beers_uri None).
  assert (Hk : forall r s' m,
             fetches_from env m
               match r with
               | Fulfilled fetched =>
                   match fetched with
                   | [] => Throw s' (mkError "Beer not found or currently unavailable!")
                   | beer :: _ =>
                       React (set_beers (unionAndSortBeers (beers s') [beer]) s')
                         (fun s => Return s beer)
                   end
               | Rejected e => Throw s' e
               end = []).
  { intros [[|b l]|e] s' m; reflexivity. }
  rewrite Hk, app_nil_r.
  destruct (decide (fetchStatus s (beers_uri None) = done)) as [Hd|Hd].
  - rewrite bool_decide_eq_true_2 by assumption.
    now rewrite (getBeersApi_done parseInt (Some 0) s Hd).
  - rewrite bool_decide_eq_false_2 by assumption.
    destruct (getBeersApi_not_done parseInt (Some 0) s Hd) as [k [-> F]].
    cbn [fetches_from]. now rewrite F.
Qed.

(** C10, as the code has it: when no beer of the catalog has id 0,
    [loadBeer(0)] builds the URI of the whole collection, not the one of a
    single beer, and that is the only URI it can fetch.  When the key of
    the whole collection is [done] it fetches nothing and returns the
    first beer of the catalog, whatever its id, or fails with the
    not-found error when the catalog is empty.  Otherwise it makes that
    one fetch, and when the fetch succeeds it returns the first beer of
    the fetched collection, whatever its id, or fails with the not-found
    error when the collection is empty. *)
Theorem loadBeer_zero (parseInt : string -> number) (s : BeersState) :
  find_id (beers s) 0 = None ->
  beers_uri (Some 0) = "https://api.punkapi.com/v2/beers"
  /\ beers_uri (Some 0) = beers_uri None
  /\ (forall env,
        fetches env (loadBeer parseInt 0 s)
        = if bool_decide (fetchStatus s (beers_uri None) = done) then []
          else [beers_uri None])
  /\ (forall env,
        fetchStatus s (beers_uri None) = done ->
        outcome (run env (loadBeer parseInt 0 s))
        = match beers s with
          | [] => Rejected (mkError "Beer not found or currently unavailable!")
          | beer :: _ => Fulfilled beer
          end)
  /\ (forall env res l,
        fetchStatus s (beers_uri None) <> done ->
        settle env 0%nat _ (fetch (beers_uri None) None) = Fulfilled res ->
        status res = 200 ->
        settle env 1%nat _ (json_beers res) = Fulfilled l ->
        outcome (run env (loadBeer parseInt 0 s))
        = match l with
          | [] => Rejected (mkError "Beer not found or currently unavailable!")
          | beer :: _ => Fulfilled beer
          end).
Proof.
  intros Habs. split; [reflexivity|]. split; [reflexivity|]. split; [|split].
  - intros env. now apply fetches_of_loadBeer_zero.
  - intros env Hd. unfold loadBeer, run. rewrite Habs.
    rewrite (getBeersApi_done parseInt (Some 0) s Hd).
    cbn [await run_from]. destruct (beers s); reflexivity.
  - intros env res l Hd Hf Hs Hj. unfold loadBeer, run. rewrite Habs, run_from_await.
    destruct (getBeersApi_run_ok parseInt (Some 0) s env 0 res l Hd Hf Hs Hj)
      as [-> [-> _]].
    destruct l; reflexivity.
Qed.

Lemma loadBeer_zero_witness :
  find_id (beers (store (run (serving [mkBeer 1 "Buzz" ""])
                           (loadBeers parseInt_decimal initial)))) 0 = None
  /\ fetches (serving [mkBeer 5 "Punk" ""; mkBeer 6 "Ale" ""])
       (loadBeer parseInt_decimal 0
          (store (run (serving [mkBeer 1 "Buzz" ""])
                    (loadBeers parseInt_decimal initial))))
     = []
  /\ outcome (run (serving [mkBeer 5 "Punk" ""; mkBeer 6 "Ale" ""])
                (loadBeer parseInt_decimal 0
                   (store (run (serving [mkBeer 1 "Buzz" ""])
                             (loadBeers parseInt_decimal initial)))))
     = Fulfilled (mkBeer 1 "Buzz" "").
Proof.
  split; [reflexivity|].
  split.
  - refine (proj1 (proj2 (proj2
      (loadBeer_zero parseInt_decimal
         (store (run (serving [mkBeer 1 "Buzz" ""])
                   (loadBeers parseInt_decimal initial))) _))) _).
    reflexivity.
  - refine (proj1 (proj2 (proj2 (proj2
      (loadBeer_zero parseInt_decimal
         (store (run (serving [mkBeer 1 "Buzz" ""])
                   (loadBeers parseInt_decimal initial))) _)))) _ _).
    + reflexivity.
    + reflexivity.
Defined.

(** C10, as stated, fails when the whole collection has been loaded: its
    key is [done], and [loadBeer(0)] fetches nothing and returns the first
    beer of the catalog, not of the collection that a fetch would give. *)
Lemma zero_after_loadBeers_is_not_fetched :
  beers (store (run (serving [mkBeer 1 "Buzz" ""])
                  (loadBeers parseInt_decimal initial))) = [mkBeer 1 "Buzz" ""]
  /\ fetchStatus (store (run (serving [mkBeer 1 "Buzz" ""])
                           (loadBeers parseInt_decimal initial)))
       (beers_uri None) = done
  /\ ~ zero_returns_first_fetched parseInt_decimal
        (store (run (serving [mkBeer 1 "Buzz" ""])
                  (loadBeers parseInt_decimal initial)))
        [mkBeer 5 "Punk" ""; mkBeer 6 "Ale" ""].
Proof.
  split; [reflexivity|]. split; [reflexivity|].
  intros H. destruct H as [H _]; [reflexivity|].
  vm_compute in H. discriminate.
Qed.

Example first_fetched_beer_for_zero :
  let e := run (serving [mkBeer 5 "Punk" ""; mkBeer 6 "Ale" ""])
             (loadBeer parseInt_decimal 0 initial) in
  outcome e = Fulfilled (mkBeer 5 "Punk" "")
  /\ beers (store e) = [mkBeer 5 "Punk" ""]
  /\ fetches (serving [mkBeer 5 "Punk" ""; mkBeer 6 "Ale" ""])
       (loadBeer parseInt_decimal 0 initial)
     = ["https://api.punkapi.com/v2/beers"].
Proof. vm_compute. auto. Qed.

(** ** [selectBeer] *)

(** C7 fails on the id 0.  No beer has id 0, in the catalog or in the fetched
    collection; [selectBeer("0")] fetches the whole collection, selects its
    first beer, and sets no error text. *)
Theorem selectBeer_zero_selects_first_fetched :
  let remote := [mkBeer 5 "Punk" ""; mkBeer 6 "Ale" ""] in
  let e := run (serving remote) (selectBeer parseInt_decimal "" (FromString "0") initial) in
  parseInt_decimal "0" = Num 0
  /\ find_id (beers initial) 0 = None
  /\ find_id remote 0 = None
  /\ fetches (serving remote) (selectBeer parseInt_decimal "" (FromString "0") initial)
     = ["https://api.punkapi.com/v2/beers"]
  /\ outcome e = Fulfilled tt
  /\ selectedBeer (store e) = Some (mkBeer 5 "Punk" "")
  /\ selectedBeer (store e) <> selectedBeer initial
  /\ errorText (store e) = None.
Proof. vm_compute. repeat split. discriminate. Qed.

(** The same on a key that is [done].  A first [selectBeer("42")] is
    answered with status 200 and no beer: it resolves, sets the not-found
    error text and leaves the selection alone, and the key of beer 42 is
    [done].  A second [selectBeer("42")] then gets the catalog from
    [getBeersApi] and takes its first beer: it selects beer 1 and sets no
    error text. *)
Lemma selectBeer_done_key_selects_other_beer :
  let s0 := set_beers [mkBeer 1 "Buzz" ""] initial in
  let first := run (serving []) (selectBeer parseInt_decimal "" (FromString "42") s0) in
  let second := run (serving [])
                  (selectBeer parseInt_decimal "" (FromString "42") (store first)) in
  outcome first = Fulfilled tt
  /\ errorText (store first) = Some "Beer not found or currently unavailable!"
  /\ selectedBeer (store first) = None
  /\ find_id (beers (store first)) 42 = None
  /\ fetchStatus (store first) (beers_uri (Some 42)) = done
  /\ fetches (serving [])
       (selectBeer parseInt_decimal "" (FromString "42") (store first)) = []
  /\ outcome second = Fulfilled tt
  /\ selectedBeer (store second) = Some (mkBeer 1 "Buzz" "")
  /\ errorText (store second) = None.
Proof. vm_compute. repeat split. Qed.

(** What does hold of [selectBeer] in every run. *)

Section Selection.

Variable parseInt : string -> number.
Variable env : environment.

(** The other tasks leave the selection alone. *)
Hypothesis others_keep_selection :
  forall n s, selectedBeer (interfere env n s) = selectedBeer s.

Lemma getBeersApi_keeps_selection (i : option Z) (s : BeersState) (n : nat) :
  selectedBeer (store (run_from env n (getBeersApi parseInt i s))) = selectedBeer s.
Proof.
  unfold getBeersApi.
  destruct (bool_decide (uriMap (dismissError s) !! beers_uri i = Some false));
    [reflexivity|].
  cbn [run_from].
  destruct (settle env n Response (fetch (beers_uri i) None)) as [res|e].
  - destruct (negb (status res =? 200)).
    + cbn [run_from store]. cbn [selectedBeer set_errorText set_uriMap].
      now rewrite others_keep_selection.
    + cbn [run_from].
      destruct (settle env (S n) (list IBeer) (json_beers res));
        cbn [run_from store];
        cbn [selectedBeer set_errorText set_uriMap set_remainingRequests];
        now rewrite !others_keep_selection.
  - cbn [run_from store]. cbn [selectedBeer set_errorText set_uriMap].
    now rewrite others_keep_selection.
Qed.

Lemma loadBeer_keeps_selection (i : Z) (s : BeersState) (n : nat) :
  selectedBeer (store (run_from env n (loadBeer parseInt i s))) = selectedBeer s.
Proof.
  unfold loadBeer. destruct (find_id (beers s) i); [reflexivity|].
  rewrite run_from_await.
  destruct (outcome (run_from env n (getBeersApi parseInt (Some i) s))) as [[|b l]|e];
    cbn [run_from store]; rewrite ?react_selectedBeer; cbn [selectedBeer set_beers];
    now rewrite others_keep_selection, getBeersApi_keeps_selection.
Qed.

(** [selectBeer] resolves in every run.  When the text is no finite
    number, the error text says so and the selection is as before.
    Otherwise the selection is the beer that [loadBeer] returns; when
    [loadBeer] fails, the error text is the message of the failure and the
    selection is as before. *)
Lemma selectBeer_settles (API_BASE_URL : string) (raw : idFromUrl) (s : BeersState) :
  let e := run env (selectBeer parseInt API_BASE_URL raw s) in
  outcome e = Fulfilled tt
  /\ match parseInt (toString raw) with
     | Num i =>
         match outcome (run env (loadBeer parseInt i (dismissError s))) with
         | Fulfilled beer => selectedBeer (store e) = Some beer
         | Rejected err =>
             errorText (store e) = Some (message err)
             /\ selectedBeer (store e) = selectedBeer s
         end
     | _ =>
         errorText (store e) = Some "Beers can only have numeric ids!"
         /\ selectedBeer (store e) = selectedBeer s
     end.
Proof.
  unfold run, selectBeer, forget. cbn [run_from store_of refreshBeersInfo].
  destruct (parseInt (toString raw)) as [i| |neg]; try (repeat split; reflexivity).
  rewrite run_from_await.
  pose proof (loadBeer_keeps_selection i (dismissError s) 0) as Hs.
  destruct (outcome (run_from env 0 (loadBeer parseInt i (dismissError s)))) as [b|err];
    cbn [run_from outcome store]; cbn [selectedBeer errorText set_selectedBeer set_errorText].
  - auto.
  - rewrite others_keep_selection, Hs. auto.
Qed.

(** [loadBeer] fails with the not-found error when the beer is not in the
    catalog and the fetch of its key is rejected or brings no beer. *)
Lemma loadBeer_not_found (i : Z) (s : BeersState) :
  find_id (beers s) i = None ->
  fetchStatus s (beers_uri (Some i)) <> done ->
  match settle env 0%nat _ (fetch (beers_uri (Some i)) None) with
  | Rejected _ => True
  | Fulfilled res =>
      status res <> 200
      \/ match settle env 1%nat _ (json_beers res) with
         | Rejected _ => True
         | Fulfilled l => l = []
         end
  end ->
  outcome (run env (loadBeer parseInt i s))
  = Rejected (mkError "Beer not found or currently unavailable!").
Proof.
  intros Habs Hd Hf. unfold run, loadBeer. rewrite Habs, run_from_await.
  assert (E : outcome (run_from env 0 (getBeersApi parseInt (Some i) s)) = Fulfilled []).
  { unfold getBeersApi, fetchStatus in *. cbn [dismissError set_errorText uriMap] in *.
    rewrite bool_decide_eq_false_2
      by (destruct (uriMap s !! beers_uri (Some i)) as [[|]|]; congruence).
    cbn [run_from].
    destruct (settle env 0 Response (fetch (beers_uri (Some i)) None)) as [res|e];
      [|reflexivity].
    destruct (Z.eqb_spec (status res) 200) as [E200|E200]; [|reflexivity].
    cbn [negb run_from]. destruct Hf as [Hf|Hf]; [contradiction|].
    destruct (settle env 1 (list IBeer) (json_beers res)) as [l|e];
      [subst l|]; reflexivity. }
  rewrite E. reflexivity.
Qed.

End Selection.

Example selectBeer_text_without_digits :
  let s0 := set_selectedBeer (Some (mkBeer 1 "Buzz" "")) initial in
  let e := run offline (selectBeer parseInt_decimal "" (FromString "abc") s0) in
  outcome e = Fulfilled tt
  /\ errorText (store e) = Some "Beers can only have numeric ids!"
  /\ selectedBeer (store e) = Some (mkBeer 1 "Buzz" "").
Proof. vm_compute. repeat split. Qed.

Example selectBeer_transport_failure :
  let s0 := set_selectedBeer (Some (mkBeer 1 "Buzz" "")) initial in
  let e := run offline (selectBeer parseInt_decimal "" (FromNumber (Num 42)) s0) in
  outcome e = Fulfilled tt
  /\ errorText (store e) = Some "Beer not found or currently unavailable!"
  /\ selectedBeer (store e) = Some (mkBeer 1 "Buzz" "")
  /\ fetchStatus (store e) (beers_uri (Some 42)) = absent.
Proof. vm_compute. repeat split. Qed.

(** ** The reaction that loads the liked beers *)

Lemma store_of_await {A B} (t : task A) (k : settled A -> BeersState -> task B) :
  store_of (await t k) = store_of t.
Proof.
  revert B k.
  induction t as [A s a | A s e | A R s io k' IH | A s k' IH | A C child _ rest IH
                 | A s k' IH];
    intros B k; cbn [await store_of]; auto.
Qed.

Lemma started_await {A B} (t : task A) (k : settled A -> BeersState -> task B) :
  started (await t k) = started t.
Proof.
  revert B k.
  induction t as [A s a | A s e | A R s io k' IH | A s k' IH | A C child _ rest IH
                 | A s k' IH];
    intros B k; cbn [await started]; try reflexivity; now rewrite IH.
Qed.

(** Until its first suspension [loadBeer] writes the error text and the
    request cache only. *)
Lemma loadBeer_begin_keeps (parseInt : string -> number) (i : Z) (s : BeersState) :
  let s' := store_of (loadBeer parseInt i s) in
  beers s' = beers s /\ likedBeerIds s' = likedBeerIds s
  /\ commentsMap s' = commentsMap s /\ selectedBeer s' = selectedBeer s.
Proof.
  unfold loadBeer. destruct (find_id (beers s) i); [repeat split|].
  rewrite store_of_await. unfold getBeersApi.
  destruct (bool_decide (uriMap (dismissError s) !! beers_uri (Some i) = Some false));
    repeat split.
Qed.

Lemma loadEach_keeps (parseInt : string -> number) (ids : list Z) (s : BeersState) :
  beers (store_of (loadEach parseInt ids s)) = beers s
  /\ likedBeerIds (store_of (loadEach parseInt ids s)) = likedBeerIds s.
Proof.
  revert s. induction ids as [|i ids IH]; intros s; [split; reflexivity|].
  cbn [loadEach forget store_of].
  destruct (IH (store_of (loadBeer parseInt i s))) as [-> ->].
  destruct (loadBeer_begin_keeps parseInt i s) as [-> [-> _]]. split; reflexivity.
Qed.

(** The reaction starts its fetches and leaves the catalog and the liked
    ids as they are: it may run between two calls of [toggleLikeBeer]. *)
Lemma autofetchLikedBeers_keeps (parseInt : string -> number) (s : BeersState) :
  beers (store_of (autofetchLikedBeers parseInt s)) = beers s
  /\ likedBeerIds (store_of (autofetchLikedBeers parseInt s)) = likedBeerIds s.
Proof.
  unfold autofetchLikedBeers.
  destruct (length (likedBeerIds s) =? length (likedBeers s))%nat;
    [split; reflexivity | apply loadEach_keeps].
Qed.

(** The reaction that the writes to [beers] and [likedBeerIds] run is the
    reaction of the class, up to where it hands control back: the same
    store, the same fetches. *)
Lemma react_loadBeer_is_loadBeer (parseInt : string -> number) (i : Z) (s : BeersState) :
  react_loadBeer i s
  = (store_of (loadBeer parseInt i s), started (loadBeer parseInt i s)).
Proof.
  unfold react_loadBeer, loadBeer. destruct (find_id (beers s) i); [reflexivity|].
  rewrite store_of_await, started_await. unfold getBeersApi. cbv zeta.
  destruct (bool_decide (uriMap (dismissError s) !! beers_uri (Some i) = Some false));
    reflexivity.
Qed.

Lemma react_loadEach_is_loadEach (parseInt : string -> number) (ids : list Z)
    (s : BeersState) :
  react_loadEach ids s
  = (store_of (loadEach parseInt ids s), started (loadEach parseInt ids s)).
Proof.
  revert s. induction ids as [|i ids IH]; intros s; [reflexivity|].
  cbn [react_loadEach loadEach forget store_of started].
  rewrite (react_loadBeer_is_loadBeer parseInt), IH. reflexivity.
Qed.

Lemma react_is_autofetchLikedBeers (parseInt : string -> number) (s : BeersState) :
  react s
  = (store_of (autofetchLikedBeers parseInt s),
     started (autofetchLikedBeers parseInt s)).
Proof.
  unfold react, autofetchLikedBeers.
  destruct (length (likedBeerIds s) =? length (likedBeers s))%nat; [reflexivity|].
  apply react_loadEach_is_loadEach.
Qed.

Example toggle_absent_with_reaction :
  let once := store_of (toggleLikeBeer "" Anonymous 7 initial) in
  let reacted := store_of (autofetchLikedBeers parseInt_decimal once) in
  fetchStatus reacted (beers_uri (Some 7)) = in_flight
  /\ likedBeerIds (store_of (toggleLikeBeer "" Anonymous 7 reacted)) = [7; 7].
Proof. vm_compute. split; reflexivity. Qed.

(** ** The catalog keeps its invariant *)

Lemma merge_catalog_ok (C X : list IBeer) : catalog_ok (unionAndSortBeers C X).
Proof. split; [apply (sortBy_sorted name) | apply merge_NoDup]. Qed.

Lemma wipe_catalog_ok (s : BeersState) : catalog_ok (beers (store_of (wipe s))).
Proof. unfold wipe. cbn [store_of]. rewrite react_beers. split; constructor. Qed.

(** Whatever the store and the other tasks, [loadBeers] leaves a catalog
    that is a merge. *)
Lemma loadBeers_catalog_ok (parseInt : string -> number) (env : environment)
    (s : BeersState) :
  catalog_ok (beers (store (run env (loadBeers parseInt s)))).
Proof.
  unfold run, loadBeers. rewrite run_from_await.
  destruct (getBeersApi_fulfils parseInt None s env 0) as [l ->].
  cbn [run_from store]. rewrite react_beers. cbn [beers set_beers].
  apply merge_catalog_ok.
Qed.

Section CatalogInvariant.

Variable parseInt : string -> number.
Variable env : environment.

(** The other tasks keep the invariant. *)
Hypothesis others_keep_catalog :
  forall n s, catalog_ok (beers s) -> catalog_ok (beers (interfere env n s)).

Lemma getBeersApi_catalog_ok (i : option Z) (s : BeersState) (n : nat) :
  catalog_ok (beers s) ->
  catalog_ok (beers (store (run_from env n (getBeersApi parseInt i s)))).
Proof.
  intros H. unfold getBeersApi.
  destruct (bool_decide (uriMap (dismissError s) !! beers_uri i = Some false));
    [exact H|].
  cbn [run_from].
  assert (H1 : catalog_ok
                 (beers (interfere env n
                           (set_uriMap (<[beers_uri i := true]> (uriMap (dismissError s)))
                              (dismissError s)))))
    by (apply others_keep_catalog; exact H).
  destruct (settle env n Response (fetch (beers_uri i) None)) as [res|e]; [|exact H1].
  destruct (negb (status res =? 200)); [exact H1|].
  cbn [run_from].
  destruct (settle env (S n) (list IBeer) (json_beers res));
    cbn [run_from store beers set_uriMap set_errorText set_remainingRequests];
    now apply others_keep_catalog.
Qed.

Lemma loadBeer_catalog_ok (i : Z) (s : BeersState) (n : nat) :
  catalog_ok (beers s) ->
  catalog_ok (beers (store (run_from env n (loadBeer parseInt i s)))).
Proof.
  intros H. unfold loadBeer. destruct (find_id (beers s) i); [exact H|].
  rewrite run_from_await.
  destruct (outcome (run_from env n (getBeersApi parseInt (Some i) s))) as [[|b l]|e];
    cbn [run_from store]; rewrite ?react_beers; cbn [beers set_beers];
    try apply merge_catalog_ok;
    now apply others_keep_catalog, getBeersApi_catalog_ok.
Qed.

End CatalogInvariant.

(** * Further properties *)

(** ** More on the merge *)

Lemma fold_push_length {A} (key : A -> Z) (l acc : list A) :
  (length (fold_left
             (fun result v =>
                if Lodash.arrayIncludesWith result v (fun a b => (key a =? key b)%Z)
                then result else result ++ [v]) l acc)
   <= length acc + length l)%nat.
Proof.
  revert acc. induction l as [|x l IH]; intros acc; simpl; [lia|].
  destruct (Lodash.arrayIncludesWith acc x (fun a b => (key a =? key b)%Z)).
  - specialize (IH acc). lia.
  - specialize (IH (acc ++ [x])). rewrite length_app in IH. simpl in IH. lia.
Qed.

(** X1: the ids of the merge are the ids of the catalog and the ids of the
    new beers, no id is lost and none comes from elsewhere; the merge is
    never longer than the two lists together. *)
Theorem merge_ids_are_union (C X : list IBeer) (i : Z) :
  (In i (map id (unionAndSortBeers C X)) <-> In i (map id C) \/ In i (map id X))
  /\ (length (unionAndSortBeers C X) <= length C + length X)%nat.
Proof.
  split.
  - rewrite merge_ids, map_app, in_app_iff. reflexivity.
  - rewrite (Permutation_length (merge_perm C X)).
    unfold Lodash.unionWith, Lodash.baseUniq.
    etransitivity; [apply (fold_push_length id)|].
    rewrite length_app. simpl. lia.
Qed.

(** X2: merging beers whose ids are all in the catalog into a catalog that
    is in name order and without a double id gives the catalog back: the
    empty list, the catalog itself, or beers fetched again change nothing. *)
Theorem merge_known_ids_is_identity (C X : list IBeer) :
  catalog_ok C ->
  (forall b, In b X -> In (id b) (map id C)) ->
  unionAndSortBeers C X = C.
Proof.
  intros [Hs Hn] HX. unfold unionAndSortBeers.
  rewrite (unionWith_absorb id) by assumption.
  apply sortBy_sorted_id. now apply StronglySorted_Sorted.
Qed.

Lemma merge_known_ids_is_identity_witness :
  catalog_ok [mkBeer 4 "Ale" ""; mkBeer 9 "Buzz" ""]
  /\ unionAndSortBeers [mkBeer 4 "Ale" ""; mkBeer 9 "Buzz" ""] [mkBeer 9 "Buzz" "new"]
     = [mkBeer 4 "Ale" ""; mkBeer 9 "Buzz" ""].
Proof.
  assert (H : catalog_ok [mkBeer 4 "Ale" ""; mkBeer 9 "Buzz" ""]).
  { split.
    - repeat constructor.
    - repeat constructor; simpl; intuition discriminate. }
  split; [exact H|].
  apply (merge_known_ids_is_identity [mkBeer 4 "Ale" ""; mkBeer 9 "Buzz" ""]
           [mkBeer 9 "Buzz" "new"] H).
  intros b [<-|[]]. simpl. right. left. reflexivity.
Defined.

Lemma find_unique_id (l : list IBeer) (b : IBeer) :
  List.NoDup (map id l) -> In b l -> find (fun a => id a =? id b) l = Some b.
Proof.
  intros Hn Hb.
  pose proof (filter_has_NoDup id l (id b) Hn) as E.
  assert (Hf : In b (List.filter (fun a => id a =? id b) l))
    by (apply filter_In; split; [assumption | apply Z.eqb_refl]).
  rewrite E in Hf. destruct (find (fun a => id a =? id b) l) as [b'|].
  - destruct Hf as [->|[]]. reflexivity.
  - destruct Hf.
Qed.

(** X3: the catalog only grows.  When no id is twice in the catalog, every
    beer of the catalog is in the merge, as the entry it was; and every id
    that only the new beers have is carried by one of them. *)
Theorem merge_keeps_catalog (C X : list IBeer) :
  List.NoDup (map id C) ->
  (forall b, In b C -> In b (unionAndSortBeers C X))
  /\ (forall i, In i (map id X) -> ~ In i (map id C) ->
        exists b, In b X /\ id b = i /\ In b (unionAndSortBeers C X)).
Proof.
  intros Hn. split.
  - intros b Hb.
    assert (E : withId (id b) (unionAndSortBeers C X) = [b]).
    { rewrite merge_withId, (find_has_app id), (find_unique_id C b Hn Hb). reflexivity. }
    assert (Hin : In b (withId (id b) (unionAndSortBeers C X)))
      by (rewrite E; now left).
    now apply filter_In in Hin.
  - intros i HX HC.
    pose proof (merge_withId C X i) as E. rewrite (find_has_app id) in E.
    assert (F : find (fun a => id a =? i) C = None) by now apply (find_has_None id).
    rewrite F in E.
    destruct (find (fun a => id a =? i) X) as [b|] eqn:G.
    + exists b. apply find_some in G. destruct G as [Hb Hi]. apply Z.eqb_eq in Hi.
      repeat split; try assumption.
      assert (Hin : In b (withId i (unionAndSortBeers C X))) by (rewrite E; now left).
      now apply filter_In in Hin.
    + exfalso. now apply (find_has_None id) in G.
Qed.

Lemma merge_keeps_catalog_witness :
  List.NoDup (map id [mkBeer 2 "Punk" "x"])
  /\ In (mkBeer 2 "Punk" "x") (unionAndSortBeers [mkBeer 2 "Punk" "x"] [mkBeer 2 "Punk" "y"]).
Proof.
  assert (H : List.NoDup (map id [mkBeer 2 "Punk" "x"]))
    by (repeat constructor; simpl; tauto).
  split; [exact H|].
  apply (proj1 (merge_keeps_catalog [mkBeer 2 "Punk" "x"] [mkBeer 2 "Punk" "y"] H)).
  now left.
Defined.

Lemma name_le_antisym (a b : string) : name_le a b -> name_le b a -> a = b.
Proof.
  unfold name_le. revert b.
  induction a as [|x a IH]; intros [|y b]; simpl; try congruence.
  destruct (N.ltb_spec (Ascii.N_of_ascii y) (Ascii.N_of_ascii x)),
           (N.ltb_spec (Ascii.N_of_ascii x) (Ascii.N_of_ascii y));
    try congruence; try lia.
  intros H1 H2. f_equal; [|now apply IH].
  rewrite <- (Ascii.ascii_N_embedding x), <- (Ascii.ascii_N_embedding y).
  f_equal. lia.
Qed.

Lemma named_cons (n : string) (a : IBeer) (l : list IBeer) :
  named n (a :: l) = if bool_decide (name a = n) then a :: named n l else named n l.
Proof. reflexivity. Qed.

Lemma named_In (n : string) (b : IBeer) (l : list IBeer) :
  In b (named n l) <-> In b l /\ name b = n.
Proof.
  unfold named. rewrite filter_In, bool_decide_eq_true. reflexivity.
Qed.

(** Two lists in name order that hold the same beers under every name, in
    the same order, are the same list. *)
Lemma sorted_by_names_unique (l1 l2 : list IBeer) :
  sortedByName l1 -> sortedByName l2 ->
  (forall n, named n l1 = named n l2) -> l1 = l2.
Proof.
  unfold sortedByName. revert l2.
  induction l1 as [|a l1 IH]; intros [|b l2] H1 H2 E; [reflexivity | | |].
  - specialize (E (name b)). rewrite named_cons, bool_decide_eq_true_2 in E by reflexivity.
    discriminate.
  - specialize (E (name a)). rewrite named_cons, bool_decide_eq_true_2 in E by reflexivity.
    discriminate.
  - apply StronglySorted_inv in H1. destruct H1 as [H1 Ha].
    apply StronglySorted_inv in H2. destruct H2 as [H2 Hb].
    rewrite List.Forall_forall in Ha, Hb.
    assert (Hab : a = b).
    { pose proof (E (name a)) as Ea. rewrite !named_cons in Ea.
      rewrite bool_decide_eq_true_2 in Ea by reflexivity.
      destruct (bool_decide (name b = name a)) eqn:D; [congruence|].
      apply bool_decide_eq_false in D. exfalso. apply D.
      assert (Ina : In a l2).
      { assert (In a (named (name a) l2)) by (rewrite <- Ea; now left).
        now apply named_In in H. }
      pose proof (E (name b)) as Eb. rewrite !named_cons in Eb.
      rewrite (bool_decide_eq_true_2 (name b = name b)) in Eb by reflexivity.
      rewrite bool_decide_eq_false_2 in Eb by congruence.
      assert (Inb : In b l1).
      { assert (In b (named (name b) l1)) by (rewrite Eb; now left).
        now apply named_In in H. }
      apply name_le_antisym; [apply Hb, Ina | apply Ha, Inb]. }
    subst b. f_equal. apply IH; try assumption.
    intros n. specialize (E n). rewrite !named_cons in E.
    destruct (bool_decide (name a = n)); congruence.
Qed.

(** What [baseUniq] appends to a result depends on the result through its
    keys only. *)
Lemma fold_push_same_keys {A} (key : A -> Z) (l acc1 acc2 : list A) :
  (forall i, In i (map key acc1) <-> In i (map key acc2)) ->
  exists extra,
    fold_left
      (fun result v =>
         if Lodash.arrayIncludesWith result v (fun a b => key a =? key b)
         then result else result ++ [v]) l acc1 = acc1 ++ extra
    /\ fold_left
         (fun result v =>
            if Lodash.arrayIncludesWith result v (fun a b => key a =? key b)
            then result else result ++ [v]) l acc2 = acc2 ++ extra.
Proof.
  revert acc1 acc2. induction l as [|x l IH]; intros acc1 acc2 K.
  - exists []. now rewrite !app_nil_r.
  - simpl.
    assert (Hx : Lodash.arrayIncludesWith acc1 x (fun a b => key a =? key b)
                 = Lodash.arrayIncludesWith acc2 x (fun a b => key a =? key b)).
    { destruct (Lodash.arrayIncludesWith acc1 x (fun a b => key a =? key b)) eqn:E1,
               (Lodash.arrayIncludesWith acc2 x (fun a b => key a =? key b)) eqn:E2;
        try reflexivity; exfalso.
      - apply (arrayIncludesWith_key key) in E1. apply K in E1.
        apply (arrayIncludesWith_key key) in E1. congruence.
      - apply (arrayIncludesWith_key key) in E2. apply K in E2.
        apply (arrayIncludesWith_key key) in E2. congruence. }
    rewrite <- Hx.
    destruct (Lodash.arrayIncludesWith acc1 x (fun a b => key a =? key b)).
    + now apply IH.
    + destruct (IH (acc1 ++ [x]) (acc2 ++ [x])) as [extra [E1 E2]].
      * intros i. rewrite !map_app, !in_app_iff, K. reflexivity.
      * exists (x :: extra). rewrite E1, E2, <- !app_assoc. split; reflexivity.
Qed.

(** X4: merging in two steps is merging at once: first [X] and then [Y]
    into the catalog gives the list that merging [X ++ Y] gives. *)
Theorem merge_in_steps (C X Y : list IBeer) :
  unionAndSortBeers (unionAndSortBeers C X) Y = unionAndSortBeers C (X ++ Y).
Proof.
  apply sorted_by_names_unique; try apply (sortBy_sorted name).
  intros n. unfold unionAndSortBeers at 1 3. unfold named.
  rewrite !(sortBy_stable name).
  unfold Lodash.unionWith, Lodash.baseUniq.
  rewrite app_assoc, !fold_left_app.
  rewrite (fold_push_fresh id (unionAndSortBeers C X) [])
    by (simpl; apply merge_NoDup).
  cbn [app].
  destruct (fold_push_same_keys id Y (unionAndSortBeers C X)
              (fold_left
                 (fun result v =>
                    if Lodash.arrayIncludesWith result v (fun a b => id a =? id b)
                    then result else result ++ [v]) X
                 (fold_left
                    (fun result v =>
                       if Lodash.arrayIncludesWith result v (fun a b => id a =? id b)
                       then result else result ++ [v]) C [])))
    as [extra [-> ->]].
  - intros i. rewrite <- fold_left_app.
    change (In i (map id (unionAndSortBeers C X))
            <-> In i (map id (Lodash.baseUniq (C ++ X) (fun a b => id a =? id b)))).
    rewrite merge_ids. symmetry. apply (baseUniq_keys id).
  - rewrite !List.filter_app. f_equal. rewrite <- fold_left_app.
    exact (sortBy_stable name n (Lodash.unionWith C X (fun a b => id a =? id b))).
Qed.

(** ** More on the request cache *)

(** X5: the key of a beer is the key of the whole collection exactly for
    the id 0, and two ids other than 0 with the same key are the same id. *)
Theorem beers_uri_keys (i j : Z) :
  (beers_uri (Some i) = beers_uri None <-> i = 0)
  /\ (i <> 0 -> j <> 0 -> beers_uri (Some i) = beers_uri (Some j) -> i = j).
Proof.
  unfold beers_uri. split.
  - destruct (Z.eqb_spec i 0) as [->|Hi]; [tauto|].
    split; [|contradiction]. intros H. apply String.app_inj in H. discriminate.
  - intros Hi Hj H. apply String.app_inj in H.
    destruct (Z.eqb_spec i 0), (Z.eqb_spec j 0); try contradiction.
    apply String.app_inj in H. now apply pretty_Z_inj in H.
Qed.

Lemma getBeersApi_run_failed (parseInt : string -> number) (i : option Z)
    (s : BeersState) (env : environment) (n : nat) (e : Error) :
  fetchStatus s (beers_uri i) <> done ->
  fetch_fails env n (beers_uri i) e ->
  outcome (run_from env n (getBeersApi parseInt i s)) = Fulfilled []
  /\ errorText (store (run_from env n (getBeersApi parseInt i s))) = Some (message e)
  /\ fetchStatus (store (run_from env n (getBeersApi parseInt i s))) (beers_uri i)
     = absent.
Proof.
  intros Hd Hf.
  unfold getBeersApi, fetchStatus in *. cbn [dismissError set_errorText uriMap] in *.
  rewrite bool_decide_eq_false_2
    by (destruct (uriMap s !! beers_uri i) as [[|]|]; congruence).
  cbn [run_from].
  destruct Hf as [Hf | [[res [Hf [Hs ->]]] | [res [Hf [Hs Hj]]]]]; rewrite Hf.
  - cbn [run_from outcome store errorText uriMap set_uriMap set_errorText].
    now rewrite lookup_delete_eq.
  - apply Z.eqb_neq in Hs. rewrite Hs.
    cbn [negb run_from outcome store errorText uriMap set_uriMap set_errorText].
    now rewrite lookup_delete_eq.
  - rewrite Hs. cbn [negb Z.eqb Pos.eqb run_from]. rewrite Hj.
    cbn [run_from outcome store errorText uriMap set_uriMap set_errorText].
    now rewrite lookup_delete_eq.
Qed.

(** X6: a fetch that fails is not remembered.  Whichever way the fetch of
    a key that is not [done] fails, [getBeersApi] returns no beers, the
    error text is the message of the error, the key is [absent], and a
    next call for the key fetches again. *)
Theorem getBeersApi_failure_is_retryable (parseInt : string -> number)
    (i : option Z) (s : BeersState) (env : environment) (n : nat) (e : Error) :
  fetchStatus s (beers_uri i) <> done ->
  fetch_fails env n (beers_uri i) e ->
  let r := run_from env n (getBeersApi parseInt i s) in
  outcome r = Fulfilled []
  /\ errorText (store r) = Some (message e)
  /\ fetchStatus (store r) (beers_uri i) = absent
  /\ fetching (getBeersApi parseInt i (store r)) = Some (beers_uri i).
Proof.
  intros Hd Hf. cbv zeta.
  pose proof (getBeersApi_run_failed parseInt i s env n e Hd Hf) as H.
  destruct H as [H1 [H2 H3]]. repeat split; try assumption.
  destruct (getBeersApi_not_done parseInt i
              (store (run_from env n (getBeersApi parseInt i s)))) as [k [-> _]];
    [congruence | reflexivity].
Qed.

Lemma getBeersApi_failure_is_retryable_witness :
  fetchStatus initial (beers_uri (Some 7)) <> done
  /\ fetch_fails offline 0 (beers_uri (Some 7)) (mkError "Failed to fetch")
  /\ errorText (store (run_from offline 0 (getBeersApi parseInt_decimal (Some 7) initial)))
     = Some "Failed to fetch"
  /\ fetchStatus (store (run_from offline 0 (getBeersApi parseInt_decimal (Some 7) initial)))
       (beers_uri (Some 7)) = absent.
Proof.
  assert (H1 : fetchStatus initial (beers_uri (Some 7)) <> done)
    by (vm_compute; discriminate).
  assert (H2 : fetch_fails offline 0 (beers_uri (Some 7)) (mkError "Failed to fetch"))
    by (left; reflexivity).
  split; [exact H1|]. split; [exact H2|].
  pose proof (getBeersApi_failure_is_retryable parseInt_decimal (Some 7) initial
                offline 0 (mkError "Failed to fetch") H1 H2) as H.
  split; [exact (proj1 (proj2 H)) | exact (proj1 (proj2 (proj2 H)))].
Defined.

(** X7: a fetch that succeeds is remembered.  After the fetch of a key that
    is not [done] is answered with status 200 and a list of beers,
    [getBeersApi] returns the list, the quota counter is what [parseInt]
    reads in the header, the key is [done], and a next call on the store
    it leaves returns the catalog without a fetch. *)
Theorem getBeersApi_success_is_cached (parseInt : string -> number)
    (i : option Z) (s : BeersState) (env : environment) (n : nat)
    (res : Response) (l : list IBeer) :
  fetchStatus s (beers_uri i) <> done ->
  settle env n _ (fetch (beers_uri i) None) = Fulfilled res ->
  status res = 200 ->
  settle env (S n) _ (json_beers res) = Fulfilled l ->
  let r := run_from env n (getBeersApi parseInt i s) in
  outcome r = Fulfilled l
  /\ remainingRequests (store r) = parseInt (default "null" (x_ratelimit_remaining res))
  /\ fetchStatus (store r) (beers_uri i) = done
  /\ getBeersApi parseInt i (store r)
     = Return (dismissError (store r)) (beers (store r)).
Proof.
  intros Hd Hf Hs Hj. cbv zeta.
  destruct (getBeersApi_run_ok parseInt i s env n res l Hd Hf Hs Hj) as [_ [Ho Hk]].
  split; [exact Ho|]. split; [|split; [exact Hk | now apply getBeersApi_done]].
  unfold getBeersApi, fetchStatus in *. cbn [dismissError set_errorText uriMap] in *.
  rewrite bool_decide_eq_false_2
    by (destruct (uriMap s !! beers_uri i) as [[|]|]; congruence).
  cbn [run_from]. rewrite Hf, Hs. cbn [negb Z.eqb Pos.eqb run_from]. rewrite Hj.
  reflexivity.
Qed.

Lemma getBeersApi_success_is_cached_witness :
  fetchStatus initial (beers_uri None) <> done
  /\ status (mkResponse 200 "OK" (Some "24")) = 200
  /\ remainingRequests
       (store (run_from (serving [mkBeer 5 "Punk" ""]) 0
                 (getBeersApi parseInt_decimal None initial))) = Num 24
  /\ fetchStatus
       (store (run_from (serving [mkBeer 5 "Punk" ""]) 0
                 (getBeersApi parseInt_decimal None initial))) (beers_uri None) = done.
Proof.
  assert (H1 : fetchStatus initial (beers_uri None) <> done)
    by (vm_compute; discriminate).
  split; [exact H1|]. split; [reflexivity|].
  pose proof (getBeersApi_success_is_cached parseInt_decimal None initial
                (serving [mkBeer 5 "Punk" ""]) 0 (mkResponse 200 "OK" (Some "24"))
                [mkBeer 5 "Punk" ""] H1 eq_refl eq_refl eq_refl) as H.
  split; [exact (proj1 (proj2 H)) | exact (proj1 (proj2 (proj2 H)))].
Defined.

Lemma getBeersApi_quiet_beers (parseInt : string -> number) (i : option Z)
    (s : BeersState) (env : environment) (n : nat) :
  quiet env -> beers (store (run_from env n (getBeersApi parseInt i s))) = beers s.
Proof.
  intros Hq. unfold getBeersApi.
  destruct (bool_decide (uriMap (dismissError s) !! beers_uri i = Some false));
    [reflexivity|].
  cbn [run_from]. rewrite Hq.
  destruct (settle env n Response (fetch (beers_uri i) None)) as [res|e];
    [|reflexivity].
  destruct (negb (status res =? 200)); [reflexivity|].
  cbn [run_from]. rewrite Hq.
  destruct (settle env (S n) (list IBeer) (json_beers res)); reflexivity.
Qed.

Lemma getBeersApi_quiet_likedBeerIds (parseInt : string -> number) (i : option Z)
    (s : BeersState) (env : environment) (n : nat) :
  quiet env ->
  likedBeerIds (store (run_from env n (getBeersApi parseInt i s))) = likedBeerIds s.
Proof.
  intros Hq. unfold getBeersApi.
  destruct (bool_decide (uriMap (dismissError s) !! beers_uri i = Some false));
    [reflexivity|].
  cbn [run_from]. rewrite Hq.
  destruct (settle env n Response (fetch (beers_uri i) None)) as [res|e];
    [|reflexivity].
  destruct (negb (status res =? 200)); [reflexivity|].
  cbn [run_from]. rewrite Hq.
  destruct (settle env (S n) (list IBeer) (json_beers res)); reflexivity.
Qed.

(** X8: [getBeersApi] never rejects, and what it writes is the error text,
    the quota counter and the entry of its own key.  In a run that no other
    task disturbs, the catalog, the selection, the liked ids, the comments,
    the beers info, the two flags and the entries of all other keys are at
    the end what they were. *)
Theorem getBeersApi_frame (parseInt : string -> number) (i : option Z)
    (s : BeersState) (env : environment) (n : nat) :
  quiet env ->
  let r := run_from env n (getBeersApi parseInt i s) in
  (exists l, outcome r = Fulfilled l)
  /\ beers (store r) = beers s
  /\ selectedBeer (store r) = selectedBeer s
  /\ likedBeerIds (store r) = likedBeerIds s
  /\ commentsMap (store r) = commentsMap s
  /\ beersInfo (store r) = beersInfo s
  /\ isUploading (store r) = isUploading s
  /\ isRehydrated (store r) = isRehydrated s
  /\ (forall u, u <> beers_uri i -> uriMap (store r) !! u = uriMap s !! u).
Proof.
  intros Hq. cbv zeta. unfold getBeersApi.
  destruct (bool_decide (uriMap (dismissError s) !! beers_uri i = Some false));
    [repeat split; eauto|].
  cbn [run_from]. rewrite Hq.
  destruct (settle env n Response (fetch (beers_uri i) None)) as [res|e].
  - destruct (negb (status res =? 200)).
    + cbn [run_from outcome store]. repeat split; eauto.
      intros u Hu. cbn [uriMap set_uriMap set_errorText dismissError].
      now rewrite lookup_delete_ne, lookup_insert_ne by congruence.
    + cbn [run_from]. rewrite Hq.
      destruct (settle env (S n) (list IBeer) (json_beers res));
        cbn [run_from outcome store]; repeat split; eauto; intros u Hu;
        cbn [uriMap set_uriMap set_errorText set_remainingRequests dismissError].
      * now rewrite !lookup_insert_ne by congruence.
      * now rewrite lookup_delete_ne, lookup_insert_ne by congruence.
  - cbn [run_from outcome store]. repeat split; eauto.
    intros u Hu. cbn [uriMap set_uriMap set_errorText dismissError].
    now rewrite lookup_delete_ne, lookup_insert_ne by congruence.
Qed.

Lemma quiet_offline : quiet offline.
Proof. intros n s. reflexivity. Qed.

Lemma quiet_serving (l : list IBeer) : quiet (serving l).
Proof. intros n s. reflexivity. Qed.

Lemma getBeersApi_frame_witness :
  quiet offline
  /\ beers (store (run_from offline 0
                     (getBeersApi parseInt_decimal (Some 7)
                        (set_beers [mkBeer 1 "Buzz" ""] initial))))
     = [mkBeer 1 "Buzz" ""].
Proof.
  split; [exact quiet_offline|].
  exact (proj1 (proj2 (getBeersApi_frame parseInt_decimal (Some 7)
                         (set_beers [mkBeer 1 "Buzz" ""] initial) offline 0
                         quiet_offline))).
Defined.

(** ** More on [loadBeer] and [loadBeers] *)

(** X9: a beer that is in the catalog is not fetched.  [loadBeer] returns
    at once a beer of the catalog with the id asked for, leaves the store
    as it is (the error text is not cleared), and makes no fetch. *)
Theorem loadBeer_cached (parseInt : string -> number) (i : Z) (s : BeersState) :
  In i (map id (beers s)) ->
  exists beer,
    loadBeer parseInt i s = Return s beer
    /\ id beer = i
    /\ In beer (beers s)
    /\ forall env, fetches env (loadBeer parseInt i s) = [].
Proof.
  intros Hi. unfold loadBeer, find_id.
  destruct (find (fun beer => id beer =? i) (beers s)) as [b|] eqn:F.
  - exists b. apply find_some in F. destruct F as [Hb Hid]. apply Z.eqb_eq in Hid.
    repeat split; auto.
  - exfalso. now apply (find_has_None id) in F.
Qed.

Lemma loadBeer_cached_witness :
  In 1 (map id (beers (set_beers [mkBeer 1 "Buzz" ""] initial)))
  /\ exists beer,
       loadBeer parseInt_decimal 1 (set_beers [mkBeer 1 "Buzz" ""] initial)
       = Return (set_beers [mkBeer 1 "Buzz" ""] initial) beer
       /\ id beer = 1
       /\ In beer (beers (set_beers [mkBeer 1 "Buzz" ""] initial))
       /\ forall env,
            fetches env (loadBeer parseInt_decimal 1
                           (set_beers [mkBeer 1 "Buzz" ""] initial)) = [].
Proof.
  split; [simpl; left; reflexivity|].
  apply (loadBeer_cached parseInt_decimal 1 (set_beers [mkBeer 1 "Buzz" ""] initial)).
  simpl. left. reflexivity.
Defined.

Lemma merge_find_new (C : list IBeer) (b : IBeer) :
  find_id C (id b) = None -> find_id (unionAndSortBeers C [b]) (id b) = Some b.
Proof.
  intros F.
  pose proof (merge_withId C [b] (id b)) as E.
  rewrite (find_has_app id) in E. unfold find_id in F. rewrite F in E.
  simpl in E. rewrite Z.eqb_refl in E.
  unfold withId in E. rewrite (filter_has_NoDup id) in E by apply merge_NoDup.
  unfold find_id.
  destruct (find (fun a => id a =? id b) (unionAndSortBeers C [b])); congruence.
Qed.

(** X10: a beer that was fetched is not fetched again.  When the beer is
    not in the catalog, its key is not [done], no other task disturbs the
    run and the fetch brings the beer with the id asked for, [loadBeer]
    returns that beer and the catalog is the merge of the old catalog and
    the beer; a second [loadBeer] of the id on the store it leaves returns
    the same beer at once, with no fetch. *)
Theorem loadBeer_fetched_once (parseInt : string -> number) (i : Z)
    (s : BeersState) (env : environment) (res : Response)
    (beer : IBeer) (others : list IBeer) :
  quiet env ->
  find_id (beers s) i = None ->
  fetchStatus s (beers_uri (Some i)) <> done ->
  settle env 0%nat _ (fetch (beers_uri (Some i)) None) = Fulfilled res ->
  status res = 200 ->
  settle env 1%nat _ (json_beers res) = Fulfilled (beer :: others) ->
  id beer = i ->
  let r := run env (loadBeer parseInt i s) in
  outcome r = Fulfilled beer
  /\ beers (store r) = unionAndSortBeers (beers s) [beer]
  /\ loadBeer parseInt i (store r) = Return (store r) beer
  /\ forall env', fetches env' (loadBeer parseInt i (store r)) = [].
Proof.
  intros Hq Habs Hd Hf Hs Hj Hid. cbv zeta.
  assert (E : run env (loadBeer parseInt i s)
              = mkEnding 3
                  (fst (react
                          (set_beers (unionAndSortBeers (beers s) [beer])
                             (store (run_from env 0 (getBeersApi parseInt (Some i) s))))))
                  (Fulfilled beer)).
  { unfold run, loadBeer. rewrite Habs, run_from_await.
    pose proof (getBeersApi_quiet_beers parseInt (Some i) s env 0 Hq) as Hb.
    destruct (getBeersApi_run_ok parseInt (Some i) s env 0 res (beer :: others)
                Hd Hf Hs Hj) as [-> [-> _]].
    rewrite Hq. cbn [run_from]. now rewrite Hb. }
  rewrite E. cbn [outcome store]. rewrite react_beers. cbn [beers set_beers].
  assert (F : find_id (unionAndSortBeers (beers s) [beer]) i = Some beer)
    by (subst i; now apply merge_find_new).
  split; [reflexivity|]. split; [reflexivity|].
  unfold loadBeer. rewrite react_beers. cbn [beers set_beers]. rewrite F.
  split; reflexivity.
Qed.

Lemma loadBeer_fetched_once_witness :
  quiet (serving [mkBeer 7 "Punk" ""])
  /\ find_id (beers initial) 7 = None
  /\ fetchStatus initial (beers_uri (Some 7)) <> done
  /\ outcome (run (serving [mkBeer 7 "Punk" ""]) (loadBeer parseInt_decimal 7 initial))
     = Fulfilled (mkBeer 7 "Punk" "")
  /\ beers (store (run (serving [mkBeer 7 "Punk" ""])
                     (loadBeer parseInt_decimal 7 initial)))
     = unionAndSortBeers (beers initial) [mkBeer 7 "Punk" ""].
Proof.
  assert (H3 : fetchStatus initial (beers_uri (Some 7)) <> done)
    by (vm_compute; discriminate).
  split; [exact (quiet_serving _)|]. split; [reflexivity|]. split; [exact H3|].
  pose proof (loadBeer_fetched_once parseInt_decimal 7 initial
                (serving [mkBeer 7 "Punk" ""]) (mkResponse 200 "OK" (Some "24"))
                (mkBeer 7 "Punk" "") [] (quiet_serving _) eq_refl H3
                eq_refl eq_refl eq_refl eq_refl) as H.
  split; [exact (proj1 H) | exact (proj1 (proj2 H))].
Defined.

(** X11: [loadBeers] resolves in every run, whatever the fetch does; the
    only fetch it can make is for the whole collection; and the catalog it
    leaves is in name order and has no id twice, whatever the catalog was
    before and whatever the other tasks did. *)
Theorem loadBeers_always_merges (parseInt : string -> number) (env : environment)
    (s : BeersState) :
  outcome (run env (loadBeers parseInt s)) = Fulfilled tt
  /\ catalog_ok (beers (store (run env (loadBeers parseInt s))))
  /\ incl (fetches env (loadBeers parseInt s)) [beers_uri None].
Proof.
  unfold run, fetches, loadBeers. rewrite run_from_await, fetches_from_await.
  destruct (getBeersApi_fulfils parseInt None s env 0) as [l ->].
  cbn [run_from fetches_from outcome store]. rewrite react_beers.
  cbn [beers set_beers].
  split; [reflexivity|]. split; [apply merge_catalog_ok|].
  rewrite app_nil_r.
  destruct (fetchStatus s (beers_uri None)) eqn:E.
  - destruct (getBeersApi_not_done parseInt None s) as [k [-> F]]; [congruence|].
    cbn [fetches_from]. rewrite F. apply incl_refl.
  - destruct (getBeersApi_not_done parseInt None s) as [k [-> F]]; [congruence|].
    cbn [fetches_from]. rewrite F. apply incl_refl.
  - rewrite (getBeersApi_done parseInt None s E). intros x [].
Qed.

(** X12: what [loadBeers] leaves in a run that no other task disturbs.
    After a fetch that succeeds the catalog is the merge of the old catalog
    and the fetched beers, so every fetched id is in it; after a fetch that
    fails a catalog that was in order and without a double id is unchanged.
    The error text after a fetch that fails is the message when every
    liked id is in the catalog; when a liked id is missing the reaction,
    which the assignment to [beers] runs, has called [loadBeer] for it and
    the error text is cleared. *)
Theorem loadBeers_result (parseInt : string -> number) (env : environment)
    (s : BeersState) :
  quiet env ->
  fetchStatus s (beers_uri None) <> done ->
  (forall res l,
     settle env 0%nat _ (fetch (beers_uri None) None) = Fulfilled res ->
     status res = 200 ->
     settle env 1%nat _ (json_beers res) = Fulfilled l ->
     beers (store (run env (loadBeers parseInt s))) = unionAndSortBeers (beers s) l
     /\ forall b, In b l -> In (id b) (map id (beers (store (run env (loadBeers parseInt s))))))
  /\ (forall e,
        fetch_fails env 0 (beers_uri None) e ->
        catalog_ok (beers s) ->
        beers (store (run env (loadBeers parseInt s))) = beers s
        /\ errorText (store (run env (loadBeers parseInt s)))
           = match missing_of s (likedBeerIds s) with
             | [] => Some (message e)
             | _ :: _ => None
             end).
Proof.
  intros Hq Hd.
  pose proof (getBeersApi_quiet_beers parseInt None s env 0 Hq) as Hb.
  pose proof (getBeersApi_quiet_likedBeerIds parseInt None s env 0 Hq) as Hl.
  split.
  - intros res l Hf Hs Hj. unfold run, loadBeers. rewrite run_from_await.
    destruct (getBeersApi_run_ok parseInt None s env 0 res l Hd Hf Hs Hj)
      as [_ [-> _]].
    rewrite Hq. cbn [run_from store]. rewrite react_beers. cbn [beers set_beers].
    rewrite Hb.
    split; [reflexivity|]. intros b Hin. apply merge_ids.
    rewrite map_app, in_app_iff. right. now apply in_map.
  - intros e Hf Hok. unfold run, loadBeers. rewrite run_from_await.
    destruct (getBeersApi_run_failed parseInt None s env 0 e Hd Hf)
      as [-> [He _]].
    rewrite Hq. cbn [run_from store].
    assert (Em : unionAndSortBeers (beers s) [] = beers s).
    { destruct Hok as [Hs Hn]. unfold unionAndSortBeers.
      rewrite (unionWith_absorb id) by (try assumption; intros b []).
      apply sortBy_sorted_id. now apply StronglySorted_Sorted. }
    set (got := store (run_from env 0 (getBeersApi parseInt None s))) in *.
    set (merged := set_beers (unionAndSortBeers (beers got) []) got).
    assert (Eb : beers merged = beers s)
      by (unfold merged; cbn [beers set_beers]; now rewrite Hb).
    split; [now rewrite react_beers|].
    rewrite (react_loadEach_liked merged) by (rewrite Eb; apply Hok).
    destruct (react_loadEach_spec (likedBeerIds merged) merged) as (T & _).
    rewrite T. change (likedBeerIds merged) with (likedBeerIds got). rewrite Hl.
    change (errorText merged) with (errorText got). rewrite He.
    unfold missing_of.
    rewrite (filter_ext (missing merged) (missing s))
      by (intros i; unfold missing; now rewrite Eb).
    reflexivity.
Qed.

Lemma loadBeers_result_witness :
  quiet (serving [mkBeer 5 "Punk" ""; mkBeer 6 "Ale" ""])
  /\ fetchStatus initial (beers_uri None) <> done
  /\ beers (store (run (serving [mkBeer 5 "Punk" ""; mkBeer 6 "Ale" ""])
                     (loadBeers parseInt_decimal initial)))
     = unionAndSortBeers (beers initial) [mkBeer 5 "Punk" ""; mkBeer 6 "Ale" ""].
Proof.
  assert (H2 : fetchStatus initial (beers_uri None) <> done)
    by (vm_compute; discriminate).
  split; [exact (quiet_serving _)|]. split; [exact H2|].
  exact (proj1 (proj1 (loadBeers_result parseInt_decimal
                         (serving [mkBeer 5 "Punk" ""; mkBeer 6 "Ale" ""]) initial
                         (quiet_serving _) H2)
                 (mkResponse 200 "OK" (Some "24"))
                 [mkBeer 5 "Punk" ""; mkBeer 6 "Ale" ""] eq_refl eq_refl eq_refl)).
Defined.

(** ** [refreshBeersInfo] and [uploadStateToUserProfile] *)

(** X13: [refreshBeersInfo] never rejects and writes the beers info and the
    error text only.  In a run that no other task disturbs: when [fetch] or
    [res.json()] rejects, the error text is the message behind the prefix
    and the beers info is kept; otherwise the beers info is the body,
    whatever the status of the response, and the error text is kept. *)
Theorem refreshBeersInfo_result (API_BASE_URL : string) (s : BeersState)
    (env : environment) :
  quiet env ->
  let r := run env (refreshBeersInfo API_BASE_URL s) in
  outcome r = Fulfilled tt
  /\ (beers (store r) = beers s /\ remainingRequests (store r) = remainingRequests s
      /\ selectedBeer (store r) = selectedBeer s /\ likedBeerIds (store r) = likedBeerIds s
      /\ commentsMap (store r) = commentsMap s /\ isUploading (store r) = isUploading s
      /\ uriMap (store r) = uriMap s)
  /\ match settle env 0%nat _ (fetch (API_BASE_URL +:+ "/app/v1/beers-info") None) with
     | Rejected e =>
         errorText (store r) = Some ("refreshBeersInfo error: " +:+ message e)
         /\ beersInfo (store r) = beersInfo s
     | Fulfilled res =>
         match settle env 1%nat _ (json_info res) with
         | Rejected e =>
             errorText (store r) = Some ("refreshBeersInfo error: " +:+ message e)
             /\ beersInfo (store r) = beersInfo s
         | Fulfilled info =>
             beersInfo (store r) = info /\ errorText (store r) = errorText s
         end
     end.
Proof.
  intros Hq. cbv zeta. unfold run, refreshBeersInfo. cbn [run_from]. rewrite Hq.
  destruct (settle env 0 Response (fetch (API_BASE_URL +:+ "/app/v1/beers-info") None))
    as [res|e]; [|repeat split].
  cbn [run_from]. rewrite Hq.
  destruct (settle env 1 (option IBeersInfo) (json_info res)); repeat split.
Qed.

Lemma refreshBeersInfo_result_witness :
  quiet offline
  /\ errorText (store (run offline (refreshBeersInfo "" initial)))
     = Some "refreshBeersInfo error: Failed to fetch"
  /\ beersInfo (store (run offline (refreshBeersInfo "" initial))) = beersInfo initial.
Proof.
  split; [exact quiet_offline|].
  exact (proj2 (proj2 (refreshBeersInfo_result "" initial offline quiet_offline))).
Defined.

(** X14: the upload.  Without authentication nothing is sent and the store
    is left as it is.  With authentication one [PATCH] is sent to the
    profile, with the bearer token and the comments and liked ids of the
    store; the uploading flag is set while the call waits, and in every run
    the call resolves with the flag cleared. *)
Theorem upload_sends_and_clears_flag (API_BASE_URL : string) (auth : AuthState)
    (s : BeersState) (env : environment) :
  let call := uploadStateToUserProfile API_BASE_URL auth s in
  outcome (run env call) = Fulfilled tt
  /\ match auth with
     | Anonymous => started call = [] /\ store (run env call) = s
     | Authenticated accessToken =>
         started call
         = [(API_BASE_URL +:+ "/app/v1/user/profile",
             Some (mkInit "PATCH" ("Bearer " +:+ accessToken)
                     (commentsMap s) (likedBeerIds s)))]
         /\ isUploading (store_of call) = true
         /\ isUploading (store (run env call)) = false
     end.
Proof.
  cbv zeta. destruct auth as [|tok]; [repeat split|].
  unfold run, uploadStateToUserProfile. cbn [run_from started store_of].
  destruct (settle env 0 Response
              (fetch (API_BASE_URL +:+ "/app/v1/user/profile")
                 (Some (mkInit "PATCH" ("Bearer " +:+ tok)
                          (commentsMap (set_isUploading true s))
                          (likedBeerIds (set_isUploading true s)))))) as [res|e].
  - destruct (negb (ok res)); [repeat split|].
    cbn [run_from].
    destruct (settle env 1 unit (json_any res)); repeat split.
  - repeat split.
Qed.

(** X15: what the upload leaves in a run that no other task disturbs.  A
    response that is not ok gives the error text [status: statusText], a
    rejection gives its message, and a success keeps the error text; in
    each case the catalog, the liked ids and the comments are as before. *)
Theorem upload_result (API_BASE_URL accessToken : string) (s : BeersState)
    (env : environment) :
  quiet env ->
  let call := uploadStateToUserProfile API_BASE_URL (Authenticated accessToken) s in
  let r := run env call in
  (beers (store r) = beers s /\ likedBeerIds (store r) = likedBeerIds s
   /\ commentsMap (store r) = commentsMap s)
  /\ match settle env 0%nat _
             (fetch (API_BASE_URL +:+ "/app/v1/user/profile")
                (Some (mkInit "PATCH" ("Bearer " +:+ accessToken)
                         (commentsMap s) (likedBeerIds s)))) with
     | Rejected e => errorText (store r) = Some (message e)
     | Fulfilled res =>
         if ok res then
           match settle env 1%nat _ (json_any res) with
           | Rejected e => errorText (store r) = Some (message e)
           | Fulfilled _ => errorText (store r) = errorText s
           end
         else errorText (store r) = Some (pretty (status res) +:+ ": " +:+ statusText res)
     end.
Proof.
  intros Hq. cbv zeta. unfold run, uploadStateToUserProfile. cbn [run_from]. rewrite Hq.
  change (commentsMap (set_isUploading true s)) with (commentsMap s).
  change (likedBeerIds (set_isUploading true s)) with (likedBeerIds s).
  destruct (settle env 0 Response
              (fetch (API_BASE_URL +:+ "/app/v1/user/profile")
                 (Some (mkInit "PATCH" ("Bearer " +:+ accessToken)
                          (commentsMap s) (likedBeerIds s))))) as [res|e];
    [|repeat split].
  destruct (ok res); [|repeat split].
  cbn [negb run_from]. rewrite Hq.
  destruct (settle env 1 unit (json_any res)); repeat split.
Qed.

Lemma upload_result_witness :
  quiet offline
  /\ errorText (store (run offline
                         (uploadStateToUserProfile "" (Authenticated "token") initial)))
     = Some "Failed to fetch".
Proof.
  split; [exact quiet_offline|].
  exact (proj2 (upload_result "" "token" initial offline quiet_offline)).
Defined.

(** ** More on [setComment] and [toggleLikeBeer] *)

Lemma setComment_comments (API_BASE_URL : string) (auth : AuthState) (i : Z)
    (comment : option string) (s : BeersState) :
  commentsMap (store_of (setComment API_BASE_URL auth i comment s))
  = match find_id (beers s) i with
    | None => commentsMap s
    | Some _ =>
        match comment with
        | Some text =>
            if bool_decide (text = "") then delete (pretty i) (commentsMap s)
            else <[pretty i := text]> (commentsMap s)
        | None => delete (pretty i) (commentsMap s)
        end
    end.
Proof.
  unfold setComment. destruct (find_id (beers s) i); [|reflexivity].
  cbn [forget store_of]. rewrite upload_store.
  destruct auth, comment as [text|]; try destruct (bool_decide (text = ""));
    reflexivity.
Qed.

Lemma setComment_keeps (API_BASE_URL : string) (auth : AuthState) (i : Z)
    (comment : option string) (s : BeersState) :
  beers (store_of (setComment API_BASE_URL auth i comment s)) = beers s
  /\ likedBeerIds (store_of (setComment API_BASE_URL auth i comment s)) = likedBeerIds s.
Proof.
  unfold setComment. destruct (find_id (beers s) i); [|split; reflexivity].
  cbn [forget store_of]. rewrite upload_store.
  destruct auth, comment as [text|]; try destruct (bool_decide (text = ""));
    split; reflexivity.
Qed.

(** X16: [setComment] for one beer leaves the comments of all other beers
    alone, and the catalog and the liked ids with them: the keys of the
    comments are the ids in decimal, and two ids have two keys. *)
Theorem setComment_other_beers (API_BASE_URL : string) (auth : AuthState)
    (i j : Z) (comment : option string) (s : BeersState) :
  i <> j ->
  let s' := store_of (setComment API_BASE_URL auth i comment s) in
  commentsMap s' !! pretty j = commentsMap s !! pretty j
  /\ beers s' = beers s
  /\ likedBeerIds s' = likedBeerIds s.
Proof.
  intros Hij. cbv zeta. split; [|apply setComment_keeps].
  assert (Hk : pretty i <> pretty j) by (intros H; apply pretty_Z_inj in H; contradiction).
  rewrite setComment_comments.
  destruct (find_id (beers s) i); [|reflexivity].
  destruct comment as [text|]; [destruct (bool_decide (text = ""))|].
  - now rewrite lookup_delete_ne.
  - now rewrite lookup_insert_ne.
  - now rewrite lookup_delete_ne.
Qed.

Lemma setComment_other_beers_witness :
  1 <> 12
  /\ commentsMap
       (store_of (setComment "" Anonymous 1 (Some "hoppy")
                    (set_commentsMap {[pretty 12 := "dark"]}
                       (set_beers [mkBeer 1 "Buzz" ""] initial)))) !! pretty 12
     = Some "dark".
Proof.
  split; [discriminate|].
  refine (eq_trans
            (proj1 (setComment_other_beers "" Anonymous 1 12 (Some "hoppy")
                      (set_commentsMap {[pretty 12 := "dark"]}
                         (set_beers [mkBeer 1 "Buzz" ""] initial)) _)) _).
  - discriminate.
  - vm_compute. reflexivity.
Defined.

(** X17: a comment that is set can be read and cleared.  For a beer of the
    catalog and a text that is not empty, the comment of the beer is the
    text after [setComment], a second [setComment] replaces it, and
    [setComment] with [null] after it leaves the comments as they were
    when the beer had no comment before. *)
Theorem setComment_set_then_clear (API_BASE_URL : string) (auth : AuthState)
    (i : Z) (text text' : string) (s : BeersState) :
  In i (map id (beers s)) ->
  text <> "" -> text' <> "" ->
  let s1 := store_of (setComment API_BASE_URL auth i (Some text) s) in
  commentsMap s1 !! pretty i = Some text
  /\ commentsMap (store_of (setComment API_BASE_URL auth i (Some text') s1))
     = <[pretty i := text']> (commentsMap s)
  /\ (commentsMap s !! pretty i = None ->
      commentsMap (store_of (setComment API_BASE_URL auth i None s1)) = commentsMap s).
Proof.
  intros Hi Ht Ht'. cbv zeta.
  assert (Hf : forall s', beers s' = beers s -> exists b, find_id (beers s') i = Some b).
  { intros s' E. rewrite E. destruct (find_id (beers s) i) eqn:F; [eauto|].
    exfalso. now apply (find_has_None id) in F. }
  destruct (Hf s eq_refl) as [b Fb].
  destruct (Hf (store_of (setComment API_BASE_URL auth i (Some text) s))) as [b1 Fb1];
    [apply setComment_keeps|].
  rewrite !setComment_comments, Fb1, Fb.
  rewrite !bool_decide_eq_false_2 by assumption.
  split; [apply lookup_insert_eq|]. split; [apply insert_insert_eq|].
  intros Hn. rewrite delete_insert_eq. now apply delete_id.
Qed.

Lemma setComment_set_then_clear_witness :
  In 1 (map id (beers (set_beers [mkBeer 1 "Buzz" ""] initial)))
  /\ "hoppy" <> "" /\ "dark" <> ""
  /\ commentsMap (store_of (setComment "" Anonymous 1 (Some "hoppy")
                              (set_beers [mkBeer 1 "Buzz" ""] initial))) !! pretty 1
     = Some "hoppy".
Proof.
  assert (H1 : In 1 (map id (beers (set_beers [mkBeer 1 "Buzz" ""] initial))))
    by (simpl; left; reflexivity).
  assert (H2 : "hoppy" <> "") by discriminate.
  assert (H3 : "dark" <> "") by discriminate.
  split; [exact H1|]. split; [exact H2|]. split; [exact H3|].
  exact (proj1 (setComment_set_then_clear "" Anonymous 1 "hoppy" "dark"
                  (set_beers [mkBeer 1 "Buzz" ""] initial) H1 H2 H3)).
Defined.

Lemma isLikedBeer_eq (s s' : BeersState) (i : Z) :
  (In i (map id (beers s')) /\ In i (likedBeerIds s')
   <-> In i (map id (beers s)) /\ In i (likedBeerIds s)) ->
  isLikedBeer s' i = isLikedBeer s i.
Proof.
  intros H. destruct (isLikedBeer s' i) eqn:E', (isLikedBeer s i) eqn:E; try reflexivity.
  - apply isLikedBeer_spec, H, isLikedBeer_spec in E'. congruence.
  - apply isLikedBeer_spec, H, isLikedBeer_spec in E. congruence.
Qed.

(** X18: what [toggleLikeBeer] does to [isLikedBeer].  For a beer of the
    catalog the answer for its id is the opposite after the call; for an id
    that no beer of the catalog has it stays [false]; and the answer for
    every other id is as before. *)
Theorem toggle_flips_isLikedBeer (API_BASE_URL : string) (auth : AuthState)
    (i : Z) (s : BeersState) :
  let s' := store_of (toggleLikeBeer API_BASE_URL auth i s) in
  isLikedBeer s' i
  = match find_id (beers s) i with
    | Some _ => negb (isLikedBeer s i)
    | None => false
    end
  /\ forall j, j <> i -> isLikedBeer s' j = isLikedBeer s j.
Proof.
  cbv zeta. split.
  - destruct (find_id (beers s) i) eqn:F.
    + assert (Hi : In i (map id (beers s))).
      { destruct (in_dec Z.eq_dec i (map id (beers s))) as [H|H]; [exact H|].
        apply (find_has_None id) in H. unfold find_id in F. congruence. }
      destruct (isLikedBeer s i) eqn:L; cbn [negb].
      * destruct (isLikedBeer (store_of (toggleLikeBeer API_BASE_URL auth i s)) i)
          eqn:L'; [|reflexivity].
        apply isLikedBeer_spec in L'. destruct L' as [_ L'].
        rewrite toggle_likedBeerIds, L in L'. now apply removed_not_in in L'.
      * apply isLikedBeer_spec. rewrite toggle_beers, toggle_likedBeerIds, L.
        split; [assumption|]. rewrite in_app_iff. right. now left.
    + destruct (isLikedBeer (store_of (toggleLikeBeer API_BASE_URL auth i s)) i)
        eqn:L'; [|reflexivity].
      apply isLikedBeer_spec in L'. destruct L' as [L' _].
      rewrite toggle_beers in L'. apply (find_has_None id) in F. contradiction.
  - intros j Hj. apply isLikedBeer_eq.
    rewrite toggle_beers, toggle_likedBeerIds.
    destruct (isLikedBeer s i).
    + rewrite filter_In. split; [tauto|]. intros [H1 H2]. repeat split; try assumption.
      apply negb_true_iff, Z.eqb_neq. exact Hj.
    + rewrite in_app_iff. simpl. split; [|tauto].
      intros [H1 [H2|[H2|[]]]]; [tauto | congruence].
Qed.

Lemma fetched_of_ext (s s' : BeersState) (ids : list Z) :
  beers s' = beers s -> uriMap s' = uriMap s -> fetched_of s' ids = fetched_of s ids.
Proof.
  intros Eb Eu. unfold fetched_of, missing_of, missing. now rewrite Eb, Eu.
Qed.

(** X19: what [toggleLikeBeer] and [setComment] send before they return.
    With authentication [toggleLikeBeer] sends one [PATCH] whose liked ids
    are the list after the toggle, and [setComment] for a beer of the
    catalog one whose comments are the comments after the change; without
    authentication, and when [setComment] throws, no [PATCH] is sent.
    After the [PATCH] of [toggleLikeBeer] the reaction runs: when the
    liked ids and the liked beers of the catalog differ in number, it
    fetches, in the order of the liked ids after the toggle, every liked
    beer that is missing from the catalog and whose key is not [done]. *)
Theorem push_carries_new_state (API_BASE_URL : string) (auth : AuthState)
    (i : Z) (comment : option string) (s : BeersState) :
  let toggled := toggleLikeBeer API_BASE_URL auth i s in
  let commented := setComment API_BASE_URL auth i comment s in
  started toggled
  = match auth with
    | Anonymous => []
    | Authenticated accessToken =>
        [(API_BASE_URL +:+ "/app/v1/user/profile",
          Some (mkInit "PATCH" ("Bearer " +:+ accessToken)
                  (commentsMap s) (likedBeerIds (store_of toggled))))]
    end
    ++ (if (length (likedBeerIds (store_of toggled))
            =? length (likedBeers (store_of toggled)))%nat
        then []
        else map get_beer (fetched_of s (likedBeerIds (store_of toggled))))
  /\ started commented
     = match auth, find_id (beers s) i with
       | Authenticated accessToken, Some _ =>
           [(API_BASE_URL +:+ "/app/v1/user/profile",
             Some (mkInit "PATCH" ("Bearer " +:+ accessToken)
                     (commentsMap (store_of commented)) (likedBeerIds s)))]
       | _, _ => []
       end.
Proof.
  cbv zeta. split.
  - unfold toggleLikeBeer.
    set (changed := if negb (isLikedBeer s i)
                    then set_likedBeerIds (likedBeerIds s ++ [i]) s
                    else set_likedBeerIds
                           (List.filter (fun item => negb (item =? i)) (likedBeerIds s)) s).
    cbn [forget started store_of]. rewrite app_nil_r.
    set (pushed := store_of (uploadStateToUserProfile API_BASE_URL auth changed)).
    assert (Eb : beers pushed = beers s /\ uriMap pushed = uriMap s
                 /\ likedBeerIds pushed = likedBeerIds changed
                 /\ commentsMap changed = commentsMap s).
    { unfold pushed, changed. rewrite upload_store.
      destruct auth; destruct (isLikedBeer s i); repeat split. }
    destruct Eb as (Eb & Eu & El & Ec).
    assert (Ek : likedBeers (fst (react pushed)) = likedBeers pushed)
      by (unfold likedBeers; now rewrite react_beers, react_likedBeerIds).
    rewrite Ek, react_likedBeerIds, El. f_equal.
    + unfold changed. destruct auth; [reflexivity|].
      destruct (isLikedBeer s i); reflexivity.
    + unfold react. rewrite El.
      destruct (length (likedBeerIds changed) =? length (likedBeers pushed))%nat;
        [reflexivity|].
      destruct (react_loadEach_spec (likedBeerIds changed) pushed) as (_ & _ & ->).
      now rewrite (fetched_of_ext s pushed).
  - unfold setComment. destruct (find_id (beers s) i); [|destruct auth; reflexivity].
    destruct auth; [reflexivity|].
    destruct comment as [text|]; [destruct (bool_decide (text = ""))|]; reflexivity.
Qed.

(** A liked beer that is not in the catalog is fetched at once: the
    reaction runs before [toggleLikeBeer] returns. *)
Example toggle_absent_fetches :
  started (toggleLikeBeer "" Anonymous 7 initial) = [(beers_uri (Some 7), None)]
  /\ fetchStatus (store_of (toggleLikeBeer "" Anonymous 7 initial)) (beers_uri (Some 7))
     = in_flight
  /\ started (toggleLikeBeer "" Anonymous 1 (set_beers [mkBeer 1 "Buzz" ""] initial))
     = [].
Proof. vm_compute. repeat split. Qed.

(** ** The two aggregates of the request cache *)

Lemma fold_or_true (l : list (string * bool)) (init : bool) :
  fold_left (fun sum kv => snd kv || sum) l init = true
  <-> init = true \/ exists kv, In kv l /\ snd kv = true.
Proof.
  revert init. induction l as [|[k v] l IH]; intros init; simpl.
  - split; [tauto|]. intros [H|[kv [[] _]]]. exact H.
  - rewrite IH. split.
    + intros [H|[kv [H1 H2]]].
      * apply orb_true_iff in H. destruct H as [H|H]; [|tauto].
        right. exists (k, v). auto.
      * right. exists kv. auto.
    + intros [H|[kv [[<-|H1] H2]]].
      * left. rewrite H. apply orb_true_r.
      * left. simpl in H2. now rewrite H2.
      * right. exists kv. auto.
Qed.

(** X20: [loading] is true exactly when the uploading flag is set or some
    key is [in_flight]; keys that are [done] do not count. *)
Theorem loading_iff (s : BeersState) :
  loading s = true
  <-> isUploading s = true \/ exists uri, fetchStatus s uri = in_flight.
Proof.
  unfold loading. rewrite fold_or_true. apply or_iff_compat_l. split.
  - intros [[k v] [Hin Hv]]. simpl in Hv. subst v. exists k.
    apply list_elem_of_In, elem_of_map_to_list in Hin.
    unfold fetchStatus. now rewrite Hin.
  - intros [uri H]. exists (uri, true). split; [|reflexivity].
    apply list_elem_of_In, elem_of_map_to_list.
    unfold fetchStatus in H. destruct (uriMap s !! uri) as [[|]|]; congruence.
Qed.

Lemma fold_count_shift (l : list (string * bool)) (a : Z) :
  fold_left (fun sum kv => if snd kv : bool then sum else sum + 1) l a
  = a + fold_left (fun sum kv => if snd kv : bool then sum else sum + 1) l 0.
Proof.
  revert a. induction l as [|[k v] l IH]; intros a; simpl; [lia|].
  rewrite (IH (if v then a else a + 1)), (IH (if v then 0 else 0 + 1)).
  destruct v; lia.
Qed.

Lemma fold_count_perm (l l' : list (string * bool)) (a : Z) :
  Permutation l l' ->
  fold_left (fun sum kv => if snd kv : bool then sum else sum + 1) l a
  = fold_left (fun sum kv => if snd kv : bool then sum else sum + 1) l' a.
Proof.
  intros H. revert a.
  induction H as [|x l l' _ IH|x y l|l l' l'' _ IH1 _ IH2]; intros a; simpl.
  - reflexivity.
  - apply IH.
  - destruct (snd x), (snd y); reflexivity.
  - now rewrite IH1.
Qed.

(** The count of [requestCount] is the number of entries with [false]. *)
Lemma count_done_size (m : gmap string bool) :
  fold_left (fun sum kv => if snd kv : bool then sum else sum + 1) (map_to_list m) 0
  = Z.of_nat (size (filter (fun kv : string * bool => kv.2 = false) m)).
Proof.
  induction m as [|k v m Hk IH] using map_ind.
  - rewrite map_to_list_empty, map_filter_empty, map_size_empty. reflexivity.
  - rewrite (fold_count_perm _ _ 0 (map_to_list_insert m k v Hk)). simpl.
    rewrite fold_count_shift, IH. destruct v.
    + rewrite map_filter_insert_False by (simpl; congruence).
      rewrite delete_id by assumption. lia.
    + rewrite map_filter_insert_True by reflexivity.
      rewrite map_size_insert_None by (apply map_lookup_filter_None_2; now left).
      lia.
Qed.

(** X21: [requestCount] is the number of keys that are [done]: the fetches
    that have succeeded, not those that are under way.  It is 0 exactly
    when no key is [done]. *)
Theorem requestCount_counts_done (s : BeersState) :
  requestCount s
  = Z.of_nat (size (filter (fun kv : string * bool => kv.2 = false) (uriMap s)))
  /\ (requestCount s = 0 <-> forall uri, fetchStatus s uri <> done).
Proof.
  unfold requestCount. rewrite count_done_size. split; [reflexivity|].
  split.
  - intros H uri Hd.
    assert (E : filter (fun kv : string * bool => kv.2 = false) (uriMap s) = ∅)
      by (apply map_size_empty_iff; lia).
    unfold fetchStatus in Hd.
    destruct (uriMap s !! uri) as [[|]|] eqn:L; try discriminate.
    now apply (map_filter_empty_not_lookup _ _ uri false E).
  - intros H.
    assert (E : filter (fun kv : string * bool => kv.2 = false) (uriMap s) = ∅).
    { apply map_empty_filter_2. intros uri v L Hv. simpl in Hv. subst v.
      apply (H uri). unfold fetchStatus. now rewrite L. }
    rewrite E, map_size_empty. reflexivity.
Qed.

(** X22: a fetch that succeeds adds one to [requestCount], a fetch that
    fails adds nothing, in a run of [getBeersApi] for a key that is not
    [done] that no other task disturbs. *)
Theorem requestCount_after_fetch (parseInt : string -> number) (i : option Z)
    (s : BeersState) (env : environment) (n : nat) :
  quiet env ->
  fetchStatus s (beers_uri i) <> done ->
  let r := run_from env n (getBeersApi parseInt i s) in
  (forall res l,
     settle env n _ (fetch (beers_uri i) None) = Fulfilled res ->
     status res = 200 ->
     settle env (S n) _ (json_beers res) = Fulfilled l ->
     requestCount (store r) = requestCount s + 1)
  /\ (forall e, fetch_fails env n (beers_uri i) e ->
                requestCount (store r) = requestCount s).
Proof.
  intros Hq Hd. cbv zeta.
  assert (Hn : filter (fun kv : string * bool => kv.2 = false) (uriMap s) !! beers_uri i
               = None).
  { apply map_lookup_filter_None_2. unfold fetchStatus in Hd.
    destruct (uriMap s !! beers_uri i) as [[|]|] eqn:L; try congruence; [|now left].
    right. intros x Hx. injection Hx as <-. discriminate. }
  assert (Hfail : requestCount
                    (set_errorText None
                       (set_uriMap (delete (beers_uri i)
                                      (<[beers_uri i := true]> (uriMap s))) s))
                  = requestCount s).
  { unfold requestCount. cbn [uriMap set_uriMap set_errorText].
    rewrite !count_done_size, delete_insert_eq, map_filter_delete, delete_id
      by assumption. reflexivity. }
  unfold getBeersApi, fetchStatus in *. cbn [dismissError set_errorText uriMap] in *.
  rewrite bool_decide_eq_false_2
    by (destruct (uriMap s !! beers_uri i) as [[|]|]; congruence).
  cbn [run_from]. rewrite Hq. split.
  - intros res l Hf Hs Hj. rewrite Hf, Hs. cbn [negb Z.eqb Pos.eqb run_from].
    rewrite Hq, Hj. cbn [run_from store]. unfold requestCount.
    cbn [uriMap set_uriMap set_remainingRequests].
    rewrite !count_done_size, insert_insert_eq.
    rewrite map_filter_insert_True by reflexivity.
    rewrite map_size_insert_None by assumption. lia.
  - intros e [Hf | [[res [Hf [Hs ->]]] | [res [Hf [Hs Hj]]]]]; rewrite Hf.
    + cbn [run_from store]. exact Hfail.
    + apply Z.eqb_neq in Hs. rewrite Hs. cbn [negb run_from store]. exact Hfail.
    + rewrite Hs. cbn [negb Z.eqb Pos.eqb run_from]. rewrite Hq, Hj.
      cbn [run_from store]. exact Hfail.
Qed.

Lemma requestCount_after_fetch_witness :
  quiet (serving [])
  /\ fetchStatus initial (beers_uri None) <> done
  /\ requestCount (store (run_from (serving []) 0
                            (getBeersApi parseInt_decimal None initial)))
     = requestCount initial + 1.
Proof.
  assert (H2 : fetchStatus initial (beers_uri None) <> done)
    by (vm_compute; discriminate).
  split; [exact (quiet_serving _)|]. split; [exact H2|].
  exact (proj1 (requestCount_after_fetch parseInt_decimal None initial (serving []) 0
                  (quiet_serving _) H2)
           (mkResponse 200 "OK" (Some "24")) [] eq_refl eq_refl eq_refl).
Defined.

(** ** After [wipe] *)

Lemma no_done_no_count (s : BeersState) :
  (forall uri, fetchStatus s uri <> done) -> requestCount s = 0.
Proof.
  intros H. unfold requestCount. rewrite count_done_size.
  assert (E : filter (fun kv : string * bool => kv.2 = false) (uriMap s) = ∅).
  { apply map_empty_filter_2. intros uri v L Hv. simpl in Hv. subst v.
    apply (H uri). unfold fetchStatus. now rewrite L. }
  rewrite E, map_size_empty. reflexivity.
Qed.

(** X23: [wipe] forgets what was fetched, and the reaction fetches the
    liked beers again.  Afterwards no key is [done] and [requestCount] is
    0; no id counts as liked although the liked ids are kept; before
    [wipe] returns one fetch per liked id has been started, in the order
    of the liked ids, so that [loading] is true when an id is liked, and
    the uploading flag otherwise; and [loadBeer] of any id starts a fetch
    for the key of the id. *)
Theorem wipe_forgets (parseInt : string -> number) (s : BeersState) (i : Z) :
  let after := store_of (wipe s) in
  (forall uri, fetchStatus after uri <> done)
  /\ requestCount after = 0
  /\ isLikedBeer after i = false
  /\ likedBeerIds after = likedBeerIds s
  /\ started (wipe s) = map get_beer (likedBeerIds s)
  /\ loading after
     = (isUploading s || match likedBeerIds s with [] => false | _ :: _ => true end)
  /\ fetching (loadBeer parseInt i after) = Some (beers_uri (Some i)).
Proof.
  cbv zeta. destruct (wipe_reacts s) as (E & S & _ & F). cbv zeta in *.
  rewrite E, S. clear E S.
  set (wiped := set_remainingRequests (Num 0) (set_uriMap ∅ (set_beers [] s))) in *.
  destruct (react_loadEach_frame (likedBeerIds s) wiped)
    as (Eb & El & _ & _ & _ & _ & Eu & _).
  destruct (react_loadEach_spec (likedBeerIds s) wiped) as (_ & U & St).
  rewrite F in U, St.
  set (after := fst (react_loadEach (likedBeerIds s) wiped)) in *.
  change (beers wiped) with (@nil IBeer) in Eb.
  change (likedBeerIds wiped) with (likedBeerIds s) in El.
  change (isUploading wiped) with (isUploading s) in Eu.
  change (uriMap wiped) with (∅ : gmap string bool) in U.
  assert (Hd : forall uri, fetchStatus after uri <> done).
  { intros uri. unfold fetchStatus. rewrite U.
    destruct (bool_decide _); [discriminate|]. rewrite lookup_empty. discriminate. }
  split; [exact Hd|]. split; [now apply no_done_no_count|].
  split; [unfold isLikedBeer, likedBeers; now rewrite Eb|].
  split; [exact El|]. split; [exact St|]. split.
  - apply Bool.eq_iff_eq_true. unfold loading. rewrite fold_or_true, Eu, orb_true_iff.
    apply or_iff_compat_l. split.
    + intros [[k v] [Hin Hv]]. apply list_elem_of_In, elem_of_map_to_list in Hin.
      rewrite U in Hin. destruct (likedBeerIds s); [|reflexivity].
      rewrite bool_decide_eq_false_2 in Hin by apply not_elem_of_nil.
      now rewrite lookup_empty in Hin.
    + intros Hl. destruct (likedBeerIds s) as [|j l]; [discriminate|].
      exists (beers_uri (Some j), true). split; [|reflexivity].
      apply list_elem_of_In, elem_of_map_to_list. rewrite U.
      now rewrite bool_decide_eq_true_2 by (cbn [map]; left).
  - unfold loadBeer. rewrite Eb. cbn [find_id find].
    destruct (getBeersApi_not_done parseInt (Some i) after (Hd _)) as [k [-> _]].
    reflexivity.
Qed.

(** ** The reaction that loads the liked beers *)

Lemma likedBeers_length (s : BeersState) :
  List.NoDup (likedBeerIds s) ->
  List.NoDup (map id (beers s)) ->
  (forall i, In i (likedBeerIds s) -> In i (map id (beers s))) ->
  length (likedBeerIds s) = length (likedBeers s).
Proof.
  intros Hl Hb Hall. rewrite <- (length_map id (likedBeers s)).
  apply Permutation_length, Permutation.NoDup_Permutation; [assumption | |].
  - unfold likedBeers. clear Hall Hl.
    induction (beers s) as [|b l IH]; simpl; [constructor|].
    inversion Hb as [|? ? Hn Hb']; subst.
    destruct (bool_decide (id b ∈ likedBeerIds s)); [|now apply IH].
    simpl. constructor; [|now apply IH].
    intros H. apply Hn. apply in_map_iff in H. destruct H as [x [Hx Hin]].
    apply filter_In in Hin. rewrite <- Hx. apply in_map. tauto.
  - intros i. unfold likedBeers. rewrite in_map_iff. split.
    + intros Hi. destruct (proj1 (in_map_iff id (beers s) i) (Hall i Hi)) as [b [Hb1 Hb2]].
      exists b. split; [assumption|]. apply filter_In. split; [assumption|].
      apply bool_decide_eq_true, list_elem_of_In. now rewrite Hb1.
    + intros [b [Hb1 Hb2]]. apply filter_In in Hb2. destruct Hb2 as [_ Hb2].
      apply bool_decide_eq_true, list_elem_of_In in Hb2. now rewrite <- Hb1.
Qed.

Lemma loadBeer_started (parseInt : string -> number) (i : Z) (s : BeersState) :
  started (loadBeer parseInt i s)
  = match find_id (beers s) i with
    | Some _ => []
    | None =>
        if bool_decide (fetchStatus s (beers_uri (Some i)) = done) then []
        else [(beers_uri (Some i), None)]
    end.
Proof.
  unfold loadBeer. destruct (find_id (beers s) i); [reflexivity|].
  rewrite started_await.
  destruct (decide (fetchStatus s (beers_uri (Some i)) = done)) as [Hd|Hd].
  - rewrite bool_decide_eq_true_2 by assumption.
    now rewrite (getBeersApi_done parseInt (Some i) s Hd).
  - rewrite bool_decide_eq_false_2 by assumption.
    destruct (getBeersApi_not_done parseInt (Some i) s Hd) as [k [-> _]]. reflexivity.
Qed.

Lemma loadEach_started (parseInt : string -> number) (ids : list Z) (s : BeersState)
    (request : string * option RequestInit) :
  In request (started (loadEach parseInt ids s)) ->
  exists i, In i ids /\ find_id (beers s) i = None
            /\ request = (beers_uri (Some i), None).
Proof.
  revert s. induction ids as [|i ids IH]; intros s; cbn [loadEach forget started];
    [intros []|].
  rewrite in_app_iff. intros [H|H].
  - rewrite loadBeer_started in H. destruct (find_id (beers s) i) eqn:F; [destruct H|].
    destruct (bool_decide (fetchStatus s (beers_uri (Some i)) = done)); [destruct H|].
    destruct H as [<-|[]]. exists i. split; [now left | auto].
  - apply IH in H. destruct H as [j [Hj [Fj Hr]]]. exists j.
    split; [now right|]. split; [|assumption].
    destruct (loadBeer_begin_keeps parseInt i s) as [E _]. now rewrite <- E.
Qed.

(** X24: the reaction fetches missing beers only.  Every fetch it starts is
    the fetch of the key of a liked id that no beer of the catalog has; and
    when the liked ids are distinct, the ids of the catalog are distinct and
    every liked id is in the catalog, it does nothing at all. *)
Theorem autofetch_only_missing (parseInt : string -> number) (s : BeersState) :
  (forall request, In request (started (autofetchLikedBeers parseInt s)) ->
     exists i, In i (likedBeerIds s) /\ find_id (beers s) i = None
               /\ request = (beers_uri (Some i), None))
  /\ (List.NoDup (likedBeerIds s) ->
      List.NoDup (map id (beers s)) ->
      (forall i, In i (likedBeerIds s) -> In i (map id (beers s))) ->
      autofetchLikedBeers parseInt s = Return s tt).
Proof.
  unfold autofetchLikedBeers. split.
  - intros request.
    destruct (length (likedBeerIds s) =? length (likedBeers s))%nat; [intros []|].
    apply loadEach_started.
  - intros Hl Hb Hall. rewrite (likedBeers_length s Hl Hb Hall).
    now rewrite Nat.eqb_refl.
Qed.

(** X25: when every liked id is in the catalog the reaction starts no fetch
    and leaves the store as it is, also when the two lengths differ because
    an id is twice in the list of liked ids: the reaction then calls
    [loadBeer] for every liked id, and each call returns at once. *)
Theorem autofetch_all_present (parseInt : string -> number) (s : BeersState) :
  (forall i, In i (likedBeerIds s) -> In i (map id (beers s))) ->
  started (autofetchLikedBeers parseInt s) = []
  /\ store_of (autofetchLikedBeers parseInt s) = s.
Proof.
  intros Hall. unfold autofetchLikedBeers.
  destruct (length (likedBeerIds s) =? length (likedBeers s))%nat; [split; reflexivity|].
  revert Hall. generalize (likedBeerIds s) as ids.
  induction ids as [|i ids IH]; intros Hall; [split; reflexivity|].
  cbn [loadEach forget started store_of].
  assert (Hi : exists b, find_id (beers s) i = Some b).
  { destruct (find_id (beers s) i) eqn:F; [eauto|]. exfalso.
    apply (find_has_None id) in F. apply F, Hall. now left. }
  destruct Hi as [b Fb]. unfold loadBeer at 1 2 3. rewrite Fb. cbn [started store_of app].
  apply IH. intros j Hj. apply Hall. now right.
Qed.

Lemma autofetch_all_present_witness :
  (forall i, In i (likedBeerIds (set_likedBeerIds [7; 7]
                                   (set_beers [mkBeer 7 "Punk" ""] initial))) ->
             In i (map id (beers (set_likedBeerIds [7; 7]
                                    (set_beers [mkBeer 7 "Punk" ""] initial)))))
  /\ started (autofetchLikedBeers parseInt_decimal
                (set_likedBeerIds [7; 7] (set_beers [mkBeer 7 "Punk" ""] initial))) = [].
Proof.
  assert (H : forall i,
             In i (likedBeerIds (set_likedBeerIds [7; 7]
                                   (set_beers [mkBeer 7 "Punk" ""] initial))) ->
             In i (map id (beers (set_likedBeerIds [7; 7]
                                    (set_beers [mkBeer 7 "Punk" ""] initial))))).
  { simpl. intros i [<-|[<-|[]]]; left; reflexivity. }
  split; [exact H|].
  exact (proj1 (autofetch_all_present parseInt_decimal
                  (set_likedBeerIds [7; 7] (set_beers [mkBeer 7 "Punk" ""] initial)) H)).
Defined.

(** ** More on [selectBeer] *)

(** X26: selecting a beer of the catalog.  In a run that no other task
    disturbs, [selectBeer] with a text that [parseInt] reads as the id of a
    beer of the catalog resolves, selects a beer of the catalog with that
    id, clears the error text and changes nothing else; it fetches no beer,
    and the one fetch it starts is the refresh of the beers info. *)
Theorem selectBeer_cached (parseInt : string -> number) (API_BASE_URL : string)
    (raw : idFromUrl) (i : Z) (s : BeersState) (env : environment) :
  quiet env ->
  parseInt (toString raw) = Num i ->
  In i (map id (beers s)) ->
  exists beer,
    id beer = i /\ In beer (beers s)
    /\ outcome (run env (selectBeer parseInt API_BASE_URL raw s)) = Fulfilled tt
    /\ store (run env (selectBeer parseInt API_BASE_URL raw s))
       = set_selectedBeer (Some beer) (set_errorText None s)
    /\ fetches env (selectBeer parseInt API_BASE_URL raw s) = []
    /\ started (selectBeer parseInt API_BASE_URL raw s)
       = [(API_BASE_URL +:+ "/app/v1/beers-info", None)].
Proof.
  intros Hq Hp Hi.
  destruct (find_id (beers s) i) as [b|] eqn:F;
    [|exfalso; now apply (find_has_None id) in F].
  exists b. pose proof F as F'. apply find_some in F'. destruct F' as [Hb Hid].
  apply Z.eqb_eq in Hid.
  unfold run, fetches, selectBeer, forget.
  cbn [run_from fetches_from started store_of refreshBeersInfo]. rewrite Hp.
  unfold loadBeer. cbn [dismissError beers set_errorText]. rewrite F.
  cbn [await run_from fetches_from started app outcome store]. rewrite Hq.
  repeat split; assumption.
Qed.

Lemma selectBeer_cached_witness :
  quiet offline
  /\ parseInt_decimal (toString (FromString "1")) = Num 1
  /\ In 1 (map id (beers (set_beers [mkBeer 1 "Buzz" ""] initial)))
  /\ exists beer,
       id beer = 1 /\ In beer (beers (set_beers [mkBeer 1 "Buzz" ""] initial))
       /\ outcome (run offline (selectBeer parseInt_decimal "" (FromString "1")
                                  (set_beers [mkBeer 1 "Buzz" ""] initial)))
          = Fulfilled tt
       /\ store (run offline (selectBeer parseInt_decimal "" (FromString "1")
                                (set_beers [mkBeer 1 "Buzz" ""] initial)))
          = set_selectedBeer (Some beer)
              (set_errorText None (set_beers [mkBeer 1 "Buzz" ""] initial))
       /\ fetches offline (selectBeer parseInt_decimal "" (FromString "1")
                             (set_beers [mkBeer 1 "Buzz" ""] initial)) = []
       /\ started (selectBeer parseInt_decimal "" (FromString "1")
                     (set_beers [mkBeer 1 "Buzz" ""] initial))
          = [("" +:+ "/app/v1/beers-info", None)].
Proof.
  assert (H3 : In 1 (map id (beers (set_beers [mkBeer 1 "Buzz" ""] initial))))
    by (simpl; left; reflexivity).
  split; [exact quiet_offline|]. split; [reflexivity|]. split; [exact H3|].
  exact (selectBeer_cached parseInt_decimal "" (FromString "1") 1
           (set_beers [mkBeer 1 "Buzz" ""] initial) offline quiet_offline eq_refl H3).
Defined.

(** X27: a text that is no finite number.  [selectBeer] then resolves with
    the error text set to the numeric-ids message and everything else as
    before, in every run; it fetches no beer, but the refresh of the beers
    info has been started all the same. *)
Theorem selectBeer_not_numeric (parseInt : string -> number) (API_BASE_URL : string)
    (raw : idFromUrl) (s : BeersState) (env : environment) :
  isFinite (parseInt (toString raw)) = false ->
  outcome (run env (selectBeer parseInt API_BASE_URL raw s)) = Fulfilled tt
  /\ store (run env (selectBeer parseInt API_BASE_URL raw s))
     = set_errorText (Some "Beers can only have numeric ids!") s
  /\ fetches env (selectBeer parseInt API_BASE_URL raw s) = []
  /\ started (selectBeer parseInt API_BASE_URL raw s)
     = [(API_BASE_URL +:+ "/app/v1/beers-info", None)].
Proof.
  intros Hp. unfold run, fetches, selectBeer, forget.
  cbn [run_from fetches_from started store_of refreshBeersInfo].
  destruct (parseInt (toString raw)); [discriminate | |]; repeat split.
Qed.

Lemma selectBeer_not_numeric_witness :
  isFinite (parseInt_decimal (toString (FromString "abc"))) = false
  /\ store (run offline (selectBeer parseInt_decimal "" (FromString "abc") initial))
     = set_errorText (Some "Beers can only have numeric ids!") initial.
Proof.
  split; [reflexivity|].
  exact (proj1 (proj2 (selectBeer_not_numeric parseInt_decimal "" (FromString "abc")
                         initial offline eq_refl))).
Defined.

(** X28: a fetch that fails under [selectBeer].  When the beer is not in
    the catalog, its key is not [done] and the fetch fails with an error,
    [selectBeer] resolves, in a run that no other task disturbs, with the
    not-found message as error text (the message of the error is
    overwritten), with the selection and the catalog as before, and with
    the key [absent], so that the next call fetches again. *)
Theorem selectBeer_fetch_fails (parseInt : string -> number) (API_BASE_URL : string)
    (raw : idFromUrl) (i : Z) (s : BeersState) (env : environment) (e : Error) :
  quiet env ->
  parseInt (toString raw) = Num i ->
  find_id (beers s) i = None ->
  fetchStatus s (beers_uri (Some i)) <> done ->
  fetch_fails env 0 (beers_uri (Some i)) e ->
  let r := run env (selectBeer parseInt API_BASE_URL raw s) in
  outcome r = Fulfilled tt
  /\ errorText (store r) = Some "Beer not found or currently unavailable!"
  /\ selectedBeer (store r) = selectedBeer s
  /\ beers (store r) = beers s
  /\ fetchStatus (store r) (beers_uri (Some i)) = absent.
Proof.
  intros Hq Hp Habs Hd Hf. cbv zeta.
  assert (Hd' : fetchStatus (dismissError s) (beers_uri (Some i)) <> done) by exact Hd.
  destruct (getBeersApi_run_failed parseInt (Some i) (dismissError s) env 0 e Hd' Hf)
    as [Ho [_ Hk]].
  pose proof (getBeersApi_quiet_beers parseInt (Some i) (dismissError s) env 0 Hq) as Hb.
  assert (Hsel : selectedBeer (store (run_from env 0
                                        (getBeersApi parseInt (Some i) (dismissError s))))
                 = selectedBeer s).
  { transitivity (selectedBeer (dismissError s)); [|reflexivity].
    apply (getBeersApi_keeps_selection parseInt env). intros n s'. now rewrite Hq. }
  unfold run, selectBeer, forget. cbn [run_from store_of refreshBeersInfo]. rewrite Hp.
  rewrite run_from_await. unfold loadBeer.
  change (beers (dismissError s)) with (beers s). rewrite Habs.
  rewrite run_from_await, Ho, ?Hq.
  cbn [run_from outcome store suspensions]. rewrite ?Hq.
  cbn [run_from outcome store message errorText selectedBeer beers set_errorText].
  repeat split; assumption.
Qed.

Lemma selectBeer_fetch_fails_witness :
  quiet offline
  /\ parseInt_decimal (toString (FromNumber (Num 42))) = Num 42
  /\ find_id (beers initial) 42 = None
  /\ fetchStatus initial (beers_uri (Some 42)) <> done
  /\ fetch_fails offline 0 (beers_uri (Some 42)) (mkError "Failed to fetch")
  /\ errorText (store (run offline (selectBeer parseInt_decimal ""
                                      (FromNumber (Num 42)) initial)))
     = Some "Beer not found or currently unavailable!".
Proof.
  assert (H4 : fetchStatus initial (beers_uri (Some 42)) <> done)
    by (vm_compute; discriminate).
  assert (H5 : fetch_fails offline 0 (beers_uri (Some 42)) (mkError "Failed to fetch"))
    by (left; reflexivity).
  split; [exact quiet_offline|]. split; [reflexivity|]. split; [reflexivity|].
  split; [exact H4|]. split; [exact H5|].
  exact (proj1 (proj2 (selectBeer_fetch_fails parseInt_decimal "" (FromNumber (Num 42)) 42
                         initial offline (mkError "Failed to fetch")
                         quiet_offline eq_refl eq_refl H4 H5))).
Defined.

(** ** The liked beers *)

(** X29: [likedBeers] is the catalog restricted to the liked ids: it holds
    the beers of the catalog whose id is liked, in the order of the catalog,
    so it is in name order and without a double id when the catalog is, and
    a liked id that no beer of the catalog has is not shown. *)
Theorem likedBeers_view (s : BeersState) :
  catalog_ok (beers s) ->
  catalog_ok (likedBeers s)
  /\ (forall b, In b (likedBeers s) <-> In b (beers s) /\ In (id b) (likedBeerIds s))
  /\ (length (likedBeers s) <= length (beers s))%nat.
Proof.
  intros [Hs Hn]. unfold likedBeers. split; [|split].
  - split.
    + unfold sortedByName in *. induction Hs as [|b l Hl IH Hb]; simpl; [constructor|].
      inversion Hn as [|? ? _ Hn']; subst. specialize (IH Hn').
      destruct (bool_decide (id b ∈ likedBeerIds s)); [|exact IH].
      constructor; [exact IH|].
      rewrite List.Forall_forall in *. intros x Hx. apply Hb.
      now apply filter_In in Hx.
    + clear Hs. induction (beers s) as [|b l IH]; simpl; [constructor|].
      inversion Hn as [|? ? Hb Hn']; subst.
      destruct (bool_decide (id b ∈ likedBeerIds s)); [|now apply IH].
      simpl. constructor; [|now apply IH].
      intros H. apply Hb. apply in_map_iff in H. destruct H as [x [Hx Hin]].
      apply filter_In in Hin. rewrite <- Hx. apply in_map. tauto.
  - intros b. rewrite filter_In, bool_decide_eq_true, list_elem_of_In. reflexivity.
  - apply List.filter_length_le.
Qed.

Lemma likedBeers_view_witness :
  catalog_ok (beers (set_likedBeerIds [9; 3]
                       (set_beers [mkBeer 4 "Ale" ""; mkBeer 9 "Buzz" ""] initial)))
  /\ likedBeers (set_likedBeerIds [9; 3]
                   (set_beers [mkBeer 4 "Ale" ""; mkBeer 9 "Buzz" ""] initial))
     = [mkBeer 9 "Buzz" ""]
  /\ catalog_ok (likedBeers (set_likedBeerIds [9; 3]
                               (set_beers [mkBeer 4 "Ale" ""; mkBeer 9 "Buzz" ""] initial))).
Proof.
  assert (H : catalog_ok
                (beers (set_likedBeerIds [9; 3]
                          (set_beers [mkBeer 4 "Ale" ""; mkBeer 9 "Buzz" ""] initial)))).
  { split.
    - repeat constructor.
    - repeat constructor; simpl; intuition discriminate. }
  split; [exact H|]. split; [reflexivity|].
  exact (proj1 (likedBeers_view
                  (set_likedBeerIds [9; 3]
                     (set_beers [mkBeer 4 "Ale" ""; mkBeer 9 "Buzz" ""] initial)) H)).
Defined.
